(** * paper-handlebars: the HandlebarsRenderer of [index.js]

    A shallow embedding of the renderer class (template store, precompiled
    format detector, render pipeline, decorator chain, typed errors) and the
    properties its specification states about it.

    Conventions of the model.
    - JavaScript strings are [string]s of 8-bit code units; the two line
      separators U+2028 and U+2029 lie outside that range.
    - A method of the class is a computation in the monad [M]: it threads the
      renderer instance ([this]), the heap of context objects and the list of
      calls made to foreign callables, and completes normally or by a throw.
    - The template engine and [eval] are foreign to [index.js]; they are the
      fields of a record [Engine] every method is parameterised by.
    - Templates, decorators and the translator are foreign callables; they
      are functions of their argument, and do not touch the renderer.
    - [handlebars.partials] is a plain object.  The map [partials] is what
      the lookup [partials[path]] finds: the own properties, which are what
      was registered, and the properties inherited from [Object.prototype],
      which a new renderer already has.
    - A context is an extensible plain object or is omitted; [getLocale]
      returns a string; [eval] is the deserializer of an artifact's text, a
      function of that text.
    - The helper registry and [helperContext] of the constructor are not
      part of this development. *)

From Stdlib Require Import Ascii String ZArith.
From stdpp Require Import gmap strings list fin_maps.

(** ** Regular expressions of the shape used by the detector

    The literal in [_tryRestoringPrecompiled] is a concatenation of single
    characters, of the classes [\w] and [.], and of starred classes.  [test]
    is the search of [RegExp.prototype.test] on a regex without flags: a match
    may start at any index and need not reach the end of the input. *)
Module RegExp.

Inductive charclass : Type :=
| Lit (c : ascii)     (* the character itself *)
| Word                (* \w : [A-Za-z0-9_] *)
| Dot.                (* .  : anything but a line terminator *)

Inductive atom : Type :=
| One (cls : charclass)       (* cls  *)
| Many (cls : charclass).     (* cls* *)

Definition between (lo hi : nat) (c : ascii) : bool :=
  (lo <=? nat_of_ascii c)%nat && (nat_of_ascii c <=? hi)%nat.

Definition is_word (c : ascii) : bool :=
  between 65 90 c || between 97 122 c || between 48 57 c || Ascii.eqb c "_"%char.

Definition is_line_terminator (c : ascii) : bool :=
  Ascii.eqb c "010"%char || Ascii.eqb c "013"%char.

Definition accepts (cls : charclass) (c : ascii) : bool :=
  match cls with
  | Lit d => Ascii.eqb d c
  | Word => is_word c
  | Dot => negb (is_line_terminator c)
  end.

(** Does [re] match a prefix of the input?  A starred class first tries
    the rest of the regex where it stands, then one more character. *)
Fixpoint matchhere (re : list atom) : list ascii -> bool :=
  match re with
  | [] => fun _ => true
  | One cls :: re' => fun s =>
      match s with
      | [] => false
      | c :: s' => if accepts cls c then matchhere re' s' else false
      end
  | Many cls :: re' =>
      fix star (s : list ascii) : bool :=
        if matchhere re' s then true
        else match s with
             | [] => false
             | c :: s' => if accepts cls c then star s' else false
             end
  end.

(** Does [re] match at some index of the input? *)
Fixpoint search (re : list atom) (s : list ascii) : bool :=
  if matchhere re s then true
  else match s with
       | [] => false
       | _ :: s' => search re s'
       end.

Definition test (re : list atom) (s : string) : bool :=
  search re (list_ascii_of_string s).

(** The characters of a literal piece of a regex. *)
Definition lit (s : string) : list atom :=
  (fun c => One (Lit c)) <$> list_ascii_of_string s.

(** The language of a regex (whole-input match), as a relation. *)
Inductive matches : list atom -> list ascii -> Prop :=
| matches_nil : matches [] []
| matches_one cls re c s :
    accepts cls c = true -> matches re s -> matches (One cls :: re) (c :: s)
| matches_many_done cls re s :
    matches re s -> matches (Many cls :: re) s
| matches_many_more cls re c s :
    accepts cls c = true -> matches (Many cls :: re) s ->
    matches (Many cls :: re) (c :: s).

End RegExp.

(** The double quote character, and a string between double quotes. *)
Definition dquote : ascii := "034"%char.
Definition quoted (s : string) : string :=
  String dquote (s +:+ String dquote "").

(** ** JavaScript values, objects, exceptions *)

Inductive Value : Type :=
| VUndefined
| VNull
| VBool (b : bool)
| VNum (n : Z)
| VStr (s : string).

(** A plain object: own properties by name. *)
Abbreviation Obj := (gmap string Value).

(** References to heap objects. *)
Abbreviation loc := nat.

(** The five error classes of [index.js], and [HostError] for every exception
    that is not one of them (an engine exception, a TypeError, a SyntaxError). *)
Inductive ErrorClass : Type :=
| CompileError
| FormatError
| RenderError
| DecoratorError
| TemplateNotFoundError
| HostError.

(** Modelled from the spec: the base class AppError of lib/appError.js, "an
    immutable value carrying a human-readable message and optional structured
    context".  An exception records its class and the arguments its
    constructor was called with: the message and, when given, the details
    object. *)
Record Exn : Type := mkExn {
  kind : ErrorClass;
  message : string;
  details : option Obj
}.

Inductive Completion (A : Type) : Type :=
| Normal (a : A)
| Throw (e : Exn).
Arguments Normal {A} a.
Arguments Throw {A} e.

(** ** Foreign callables *)

(** An executable template: called with the context object it sees, it returns
    the rendered string or throws. *)
Definition Template : Type := Obj -> Completion string.

(** A decorator: called with the rendered string, returns the next one or
    throws. *)
Definition Decorator : Type := string -> Completion string.

(** Modelled from the spec: the translator of the paper library, of which the
    renderer uses "getLocale() -> string" only. *)
Record Translator : Type := { getLocale : string }.

Record Options : Type := { preventIndent : bool }.

Definition handlebarsOptions : Options := {| preventIndent := true |}.

(** What [index.js] calls without defining: the Handlebars environment's
    [compile], [precompile] and [template], and the global [eval] applied to
    the text of an assignment of an object literal. *)
Record Engine : Type := {
  TemplateSpec : Type;
  eval : string -> Completion TemplateSpec;
  compile : string -> Completion Template;
  precompile : string -> Options -> Completion string;
  template : TemplateSpec -> Completion Template
}.

(** A value of [handlebars.partials]: [registerPartial(name, partial)] is
    [this.partials[name] = partial], so a partial is whatever was registered,
    raw source text or an executable template; or it is a property that the
    plain object inherits from [Object.prototype], which the lookup
    [partials[path]] finds under the name of that property. *)
Inductive Partial : Type :=
| PSource (source : string)
| PTemplate (t : Template)
| PInherited (member : string).

(** ** The renderer instance and the monad of its methods *)

Record HandlebarsRenderer : Type := mkRenderer {
  partials : gmap string Partial;         (* this.handlebars.partials *)
  _translator : option Translator;        (* null is None *)
  _decorators : list Decorator;
  _contentRegions : Obj
}.

(** A call to a foreign callable, as the render methods make them. *)
Inductive Call : Type :=
| CallTemplate (seen : Obj)                   (* template(context) *)
| CallDecorator (i : nat) (input : string).   (* this._decorators[i](result) *)

Record World : Type := mkWorld {
  this : HandlebarsRenderer;
  heap : gmap loc Obj;
  calls : list Call
}.

Definition M (A : Type) : Type := World -> World * Completion A.

Definition ret {A} (a : A) : M A := fun w => (w, Normal a).

Definition bind {A B} (m : M A) (k : A -> M B) : M B :=
  fun w => match m w with
           | (w', Normal a) => k a w'
           | (w', Throw e) => (w', Throw e)
           end.

Definition throw {A} (e : Exn) : M A := fun w => (w, Throw e).

(** try { m } catch (e) { h e } *)
Definition try_catch {A} (m : M A) (h : Exn -> M A) : M A :=
  fun w => match m w with
           | (w', Throw e) => h e w'
           | r => r
           end.

#[global] Instance M_ret : MRet M := @ret.
#[global] Instance M_bind : MBind M := fun A B k m => bind m k.

Definition gets {A} (f : HandlebarsRenderer -> A) : M A :=
  fun w => (w, Normal (f (this w))).

Definition modify (f : HandlebarsRenderer -> HandlebarsRenderer) : M unit :=
  fun w => (mkWorld (f (this w)) (heap w) (calls w), Normal tt).

(** The completion of a foreign call, taken into the monad. *)
Definition lift {A} (c : Completion A) : M A := fun w => (w, c).

Definition record (c : Call) : M unit :=
  fun w => (mkWorld (this w) (heap w) (calls w ++ [c]), Normal tt).

(** [new C(message)] and [new C(message, details)]. *)
Definition new (c : ErrorClass) (msg : string) : Exn := mkExn c msg None.
Definition new_with (c : ErrorClass) (msg : string) (d : Obj) : Exn :=
  mkExn c msg (Some d).

(** Heap objects.  A reference handed in by a caller denotes an allocated
    object; the empty object stands in elsewhere so that the operations are
    total. *)
Definition deref (l : loc) : M Obj :=
  fun w => (w, Normal (default ∅ (heap w !! l))).

(** object.field = v *)
Definition set_field (l : loc) (field : string) (v : Value) : M unit :=
  fun w => (mkWorld (this w)
                    (<[l := <[field := v]> (default ∅ (heap w !! l))]> (heap w))
                    (calls w),
            Normal tt).

(** [context || {}]: an object reference is truthy; without one, a fresh
    empty object is allocated. *)
Definition or_empty_object (context : option loc) : M loc :=
  match context with
  | Some l => ret l
  | None => fun w =>
      let l := fresh (dom (heap w)) in
      (mkWorld (this w) (<[l := ∅]> (heap w)) (calls w), Normal l)
  end.

(** [_.each(collection, callback)] with a callback that returns undefined:
    every element is visited in order until one throws. *)
Fixpoint each {A} (xs : list A) (f : A -> M unit) : M unit :=
  match xs with
  | [] => ret tt
  | x :: xs' => f x;; each xs' f
  end.

(** ** The methods of [HandlebarsRenderer] *)

(** A call [template(context)] of a value taken from [handlebars.partials]:
    raw source text is not callable, so the call throws a TypeError; an
    executable template is run on the object [context] refers to. *)
Definition not_a_function : Exn := new HostError "template is not a function".

(** The properties of [Object.prototype], by name. *)
Definition Object_prototype : list string :=
  [ "constructor"; "__defineGetter__"; "__defineSetter__"; "hasOwnProperty";
    "__lookupGetter__"; "__lookupSetter__"; "isPrototypeOf";
    "propertyIsEnumerable"; "toString"; "valueOf"; "__proto__";
    "toLocaleString" ].

(** The TypeError of a method of [Object.prototype] that needs its receiver
    and is called without one. *)
Definition undefined_receiver : Exn :=
  new HostError "Cannot convert undefined or null to object".

(** A call [template(context)] of a property inherited from
    [Object.prototype]; the receiver of the call is undefined.  [__proto__]
    is [Object.prototype] itself, an object: it is not callable.  [toString]
    names the class of its receiver.  [constructor] is [Object], which
    returns its argument, the context object: that is no text, and it
    stands here as the text the object converts to.  Every other method
    converts its receiver to an object first, and throws. *)
Definition call_inherited (member : string) (context : loc) : M string :=
  if String.eqb member "__proto__" then throw not_a_function
  else
    seen ← deref context;
    record (CallTemplate seen);;
    if String.eqb member "toString" then ret "[object Undefined]"
    else if String.eqb member "constructor" then ret "[object Object]"
    else throw undefined_receiver.

Definition call_partial (p : Partial) (context : loc) : M string :=
  match p with
  | PSource _ => throw not_a_function
  | PTemplate t =>
      seen ← deref context;
      record (CallTemplate seen);;
      lift (t seen)
  | PInherited member => call_inherited member context
  end.

(** A call [template(context)] of what [handlebars.compile] returned. *)
Definition call_template (t : Template) (context : loc) : M string :=
  seen ← deref context;
  record (CallTemplate seen);;
  lift (t seen).

(** The body of [_.each(this._decorators, fn => { result = fn(result); })]
    from index [i] on, with the variable [result] passed along. *)
Fixpoint apply_decorators (i : nat) (fns : list Decorator) (result : string)
  : M string :=
  match fns with
  | [] => ret result
  | fn :: fns' =>
      record (CallDecorator i result);;
      result' ← lift (fn result);
      apply_decorators (S i) fns' result'
  end.

(** [handlebars.registerPartial(path, partial)] with a defined [partial]. *)
Definition registerPartial (path : string) (p : Partial) : M unit :=
  modify (fun r => mkRenderer (<[path := p]> (partials r)) (_translator r)
                              (_decorators r) (_contentRegions r)).

(** The regex literal
    [/.*"compiler"\w*:\w*\[.*"main"\w*:\w*function/]. *)
Definition re : list RegExp.atom :=
  [RegExp.Many RegExp.Dot]
  ++ RegExp.lit (quoted "compiler")
  ++ [RegExp.Many RegExp.Word; RegExp.One (RegExp.Lit ":"%char);
      RegExp.Many RegExp.Word; RegExp.One (RegExp.Lit "["%char);
      RegExp.Many RegExp.Dot]
  ++ RegExp.lit (quoted "main")
  ++ [RegExp.Many RegExp.Word; RegExp.One (RegExp.Lit ":"%char);
      RegExp.Many RegExp.Word]
  ++ RegExp.lit "function".

(** What the lookup finds in the partials of a fresh Handlebars
    environment: nothing is registered, and the plain object inherits the
    properties of [Object.prototype]. *)
Definition inherited_partials : gmap string Partial :=
  list_to_map ((fun member => (member, PInherited member)) <$> Object_prototype).

(** The initial state a constructor call leaves. *)
Definition constructor : HandlebarsRenderer :=
  mkRenderer inherited_partials None [] ∅.

Section Renderer.

Context (hb : Engine).

Definition setTranslator (translator : option Translator) : M unit :=
  modify (fun r => mkRenderer (partials r) translator
                              (_decorators r) (_contentRegions r)).

Definition getTranslator : M (option Translator) := gets _translator.

Definition _tryRestoringPrecompiled (precompiled : string) : M Partial :=
  if negb (RegExp.test re precompiled) then
    (* a raw template that can be registered directly *)
    ret (PSource precompiled)
  else
    spec ← lift (eval hb ("template = " +:+ precompiled));
    t ← lift (template hb spec);
    ret (PTemplate t).

(** [templates] lists the own enumerable properties of the argument in
    the order [_.each] visits them. *)
Definition addTemplates (templates : list (string * string)) : M unit :=
  each templates (fun '(path, template) =>
    loaded ← gets (fun r => partials r !! path);
    match loaded with
    | Some _ => ret tt       (* first one wins *)
    | None =>
        restored ← try_catch (_tryRestoringPrecompiled template)
                             (fun e => throw (new FormatError (message e)));
        registerPartial path restored
    end).

Definition isTemplateLoaded (path : string) : M bool :=
  gets (fun r => bool_decide (is_Some (partials r !! path))).

(** The function [getPreProcessor()] returns; [processed] is its local
    object, passed along the iteration. *)
Fixpoint preprocess_each (templates : list (string * string))
    (processed : gmap string string) : M (gmap string string) :=
  match templates with
  | [] => ret processed
  | (path, template) :: rest =>
      s ← try_catch (lift (precompile hb template handlebarsOptions))
            (fun e => throw (new_with CompileError (message e)
                                      {[ "path" := VStr path ]}));
      preprocess_each rest (<[path := s]> processed)
  end.

Definition getPreProcessor (templates : list (string * string))
  : M (gmap string string) :=
  preprocess_each templates ∅.

Definition addDecorator (decorator : Decorator) : M unit :=
  modify (fun r => mkRenderer (partials r) (_translator r)
                              (_decorators r ++ [decorator])
                              (_contentRegions r)).

Definition addContent (regions : Obj) : M unit :=
  modify (fun r => mkRenderer (partials r) (_translator r)
                              (_decorators r) regions).

Definition getContent : M Obj := gets _contentRegions.

Definition render (path : string) (context : option loc) : M string :=
  context ← or_empty_object context;
  (* Add some data to the context *)
  set_field context "template" (VStr path);;
  translator ← gets _translator;
  match translator with
  | Some t => set_field context "locale_name" (VStr (getLocale t))
  | None => ret tt
  end;;
  (* Look up the template *)
  found ← gets (fun r => partials r !! path);
  match found with
  | None => throw (new TemplateNotFoundError ("template not found: " +:+ path))
  | Some p =>
      (* Render the template *)
      result ← try_catch (call_partial p context)
                         (fun e => throw (new RenderError (message e)));
      (* Apply decorators *)
      fns ← gets _decorators;
      try_catch (apply_decorators 0 fns result)
                (fun e => throw (new DecoratorError (message e)))
  end.

Definition renderString (source : string) (context : option loc) : M string :=
  context ← or_empty_object context;
  (* Compile the template *)
  t ← try_catch (lift (compile hb source))
                (fun e => throw (new CompileError (message e)));
  (* Render the result *)
  try_catch (call_template t context)
            (fun e => throw (new RenderError (message e))).

End Renderer.

(** ** A stand-in engine for closed examples

    The engine is foreign to [index.js]; the general theorems quantify over
    it.  To evaluate the methods on concrete inputs, [Stub.engine] is a small
    engine of the same interface: its templates are text with [{{name}}]
    holes, filled with the string-valued property [name] of the context; a
    hole that opens a block ([{{#...}}]) or is not closed is a parse error; a
    hole holding a space calls a helper, and no helper is registered.  Its
    precompiled form has the outer shape of Handlebars' own,
    [{"compiler":[7,">= 4.0.0"],"main":function(...) {...},"useData":true}]. *)
Module Stub.

Inductive piece : Type :=
| Text (c : ascii)
| Hole (name : string).

Fixpoint parse (name : option string) (s : string) : option (list piece) :=
  match s with
  | "" => match name with None => Some [] | Some _ => None end
  | String c s' =>
      match name, s' with
      | None, "" => Some [Text c]
      | None, String d s'' =>
          if Ascii.eqb c "{"%char && Ascii.eqb d "{"%char then parse (Some "") s''
          else (fun ps => Text c :: ps) <$> parse None s'
      | Some n, "" => None
      | Some n, String d s'' =>
          if Ascii.eqb c "}"%char && Ascii.eqb d "}"%char then
            if String.prefix "#" n then None
            else (fun ps => Hole n :: ps) <$> parse None s''
          else parse (Some (n +:+ String c "")) s'
      end
  end.

Definition has_space (s : string) : bool :=
  existsb (Ascii.eqb " "%char) (list_ascii_of_string s).

Fixpoint exec (ps : list piece) (ctx : Obj) : Completion string :=
  match ps with
  | [] => Normal ""
  | Text c :: ps' =>
      match exec ps' ctx with
      | Normal out => Normal (String c out)
      | Throw e => Throw e
      end
  | Hole n :: ps' =>
      if has_space n then Throw (new HostError ("Missing helper: " +:+ n))
      else
        match exec ps' ctx with
        | Normal out =>
            Normal (match ctx !! n with Some (VStr v) => v | _ => "" end
                    +:+ out)
        | Throw e => Throw e
        end
  end.

Definition parse_error : Exn := new HostError "Parse error".
Definition syntax_error : Exn := new HostError "Unexpected end of input".

Definition load (source : string) : Completion Template :=
  match parse None source with
  | Some ps => Normal (exec ps)
  | None => Throw parse_error
  end.

Definition head : string :=
  "{" +:+ quoted "compiler" +:+ ":[7," +:+ quoted ">= 4.0.0" +:+ "],"
  +:+ quoted "main"
  +:+ ":function(container,depth0,helpers,partials,data) {/*".

Definition tail : string := "*/}," +:+ quoted "useData" +:+ ":true}".

Fixpoint strip_prefix (p s : string) : option string :=
  match p, s with
  | "", _ => Some s
  | String _ _, "" => None
  | String a p', String b s' =>
      if Ascii.eqb a b then strip_prefix p' s' else None
  end.

Definition strip_suffix (p s : string) : option string :=
  String.rev <$> strip_prefix (String.rev p) (String.rev s).

Definition engine : Engine := {|
  TemplateSpec := string;
  eval text :=
    match strip_prefix ("template = " +:+ head) text with
    | Some rest =>
        match strip_suffix tail rest with
        | Some source => Normal source
        | None => Throw syntax_error
        end
    | None => Throw syntax_error
    end;
  compile := load;
  precompile source _ :=
    match parse None source with
    | Some _ => Normal (head +:+ source +:+ tail)
    | None => Throw parse_error
    end;
  template := load
|}.

(** Running a method on a fresh renderer: no partials, an empty heap, no
    calls yet. *)
Definition fresh_world : World := mkWorld constructor ∅ [].

(** A fresh renderer after [addTemplates] of the precompiled form of
    [source] under [path]. *)
Definition world_with (path source : string) : World :=
  fst ((artifact ← lift (precompile engine source handlebarsOptions);
        addTemplates engine [(path, artifact)]) fresh_world).

(** The same world with an object of the caller at [l]. *)
Definition with_object (l : loc) (o : Obj) (w : World) : World :=
  mkWorld (this w) (<[l := o]> (heap w)) (calls w).

(** The executable template [world_with path source] binds [path] to. *)
Definition template_of (source : string) : Template :=
  match load source with
  | Normal t => t
  | Throw _ => fun _ => Normal ""
  end.

Definition en_US : Translator := {| getLocale := "en-US" |}.

(** Decorators: one that appends [suffix], one that throws. *)
Definition append (suffix : string) : Decorator :=
  fun s => Normal (s +:+ suffix).

Definition boom : Decorator := fun _ => Throw (new HostError "boom").

End Stub.


(** ** Vocabulary of the statements *)

(** A serialized artifact as Handlebars prints it, and the same object
    literal written with a space after each colon. *)
Definition compact_artifact : string :=
  "{" +:+ quoted "compiler" +:+ ":[7," +:+ quoted ">= 4.0.0" +:+ "],"
  +:+ quoted "main" +:+ ":function(container,depth0,helpers,partials,data) {"
  +:+ "return " +:+ quoted "Hello" +:+ ";}," +:+ quoted "useData" +:+ ":true}".

Definition spaced_artifact : string :=
  "{" +:+ quoted "compiler" +:+ ": [7," +:+ quoted ">= 4.0.0" +:+ "],"
  +:+ quoted "main" +:+ ": function(container,depth0,helpers,partials,data) {"
  +:+ "return " +:+ quoted "Hello" +:+ ";}," +:+ quoted "useData" +:+ ":true}".

(** A payload the regex accepts and [eval] cannot read: the artifact cut
    short after the keyword [function]. *)
Definition truncated_artifact : string :=
  "{" +:+ quoted "compiler" +:+ ":[7," +:+ quoted ">= 4.0.0" +:+ "],"
  +:+ quoted "main" +:+ ":function".

(** The context object as [render] leaves it before the lookup. *)
Definition augmented (path : string) (translator : option Translator)
    (o : Obj) : Obj :=
  match translator with
  | Some t => <["locale_name" := VStr (getLocale t)]> (<["template" := VStr path]> o)
  | None => <["template" := VStr path]> o
  end.

(** A chain of decorators as a function: each one is given what the one
    before it returned, and the first throw ends the run. *)
Fixpoint pipeline (fns : list Decorator) (s : string) : Completion string :=
  match fns with
  | [] => Normal s
  | fn :: fns' =>
      match fn s with
      | Normal s' => pipeline fns' s'
      | Throw e => Throw e
      end
  end.

(** The indices of the decorators a list of calls invoked, in order. *)
Definition invoked (cs : list Call) : list nat :=
  omap (fun c => match c with CallDecorator i _ => Some i | _ => None end) cs.

(** The templates a list of calls executed, by the context each saw. *)
Definition executed (cs : list Call) : list Obj :=
  omap (fun c => match c with CallTemplate seen => Some seen | _ => None end) cs.

(** The object [render] and [renderString] work on: the caller's, or the
    fresh one of [context || {}]; and its properties on entry. *)
Definition context_object (context : option loc) (w : World) : loc :=
  match context with
  | Some l => l
  | None => fresh (dom (heap w))
  end.

Definition context_on_entry (context : option loc) (w : World) : Obj :=
  match context with
  | Some l => default ∅ (heap w !! l)
  | None => ∅
  end.

(** The world with [p] registered under [path]. *)
Definition registered (path : string) (p : Partial) (w : World) : World :=
  fst (registerPartial path p w).

(** The world when [render] makes its lookup: the context object holds the
    added properties; nothing has been called. *)
Definition at_lookup (path : string) (context : option loc) (w : World)
  : World :=
  mkWorld (this w)
          (<[context_object context w :=
               augmented path (_translator (this w)) (context_on_entry context w)]>
             (heap w))
          (calls w).

(** Every template of the list precompiles. *)
Definition precompiles (hb : Engine) (ts : list (string * string)) : Prop :=
  Forall (fun pt => exists s, precompile hb pt.2 handlebarsOptions = Normal s) ts.

(** ** The helpers the constructor registers *)
Module Helpers.

(** [this.getTranslator.bind(this)] and [this.getContent.bind(this)]. *)
Definition bound_getTranslator : M (option Translator) := getTranslator.
Definition bound_getContent : M Obj := getContent.

(** The context the constructor hands to every helper factory.  The two
    accessors are the renderer's own methods, bound to the instance: they
    read the state at the time a helper calls them.  [storage] is the
    object as the constructor makes it. *)
Record Context : Type := mkContext {
  siteSettings : Obj;
  themeSettings : Obj;
  handlebars : Engine;
  getTranslator : M (option Translator);
  getContent : M Obj;
  storage : Obj
}.

(** Modelled from the spec: a descriptor of the list exported by
    [./helpers], "{ name: string, factory: (context) -> callable }"; [H] is
    the type of the callables. *)
Record Spec (H : Type) : Type := mkSpec {
  name : string;
  factory : Context -> H
}.
Arguments mkSpec {H} name factory.
Arguments name {H} s.
Arguments factory {H} s.

(** [this.helperContext], from the constructor's arguments; an omitted
    settings object is the empty object ([siteSettings || {}]). *)
Definition helperContext (hb : Engine) (site theme : option Obj) : Context :=
  mkContext (default ∅ site) (default ∅ theme) hb
            bound_getTranslator bound_getContent ∅.

(** [helpers.forEach(spec => this.handlebars.registerHelper(spec.name,
    spec.factory(this.helperContext)))], on the helpers of the fresh
    environment; [registerHelper(name, fn)] is [this.helpers[name] = fn]. *)
Definition register {H} (helpers : list (Spec H)) (ctx : Context)
    (env : gmap string H) : gmap string H :=
  foldl (fun env spec => <[name spec := factory spec ctx]> env) env helpers.

End Helpers.

(** * Properties *)

(** ** The matcher against the language of a regex *)
Module RegExpFacts.
Import RegExp.

Lemma matchhere_many cls re s :
  matchhere (Many cls :: re) s =
  if matchhere re s then true
  else match s with
       | [] => false
       | c :: s' => if accepts cls c then matchhere (Many cls :: re) s' else false
       end.
Proof. destruct s; reflexivity. Qed.

Lemma matches_nil_inv s : matches [] s -> s = [].
Proof. inversion 1; reflexivity. Qed.

Lemma matches_one_inv cls re s :
  matches (One cls :: re) s ->
  exists c s', s = c :: s' /\ accepts cls c = true /\ matches re s'.
Proof. inversion 1; subst; eauto. Qed.

Lemma matches_char_inv c re s :
  matches (One (Lit c) :: re) s -> exists s', s = c :: s' /\ matches re s'.
Proof.
  intros (c' & s' & -> & Hc & H)%matches_one_inv.
  apply Ascii.eqb_eq in Hc as <-. eauto.
Qed.

Lemma matches_char_intro c re s :
  matches re s -> matches (One (Lit c) :: re) (c :: s).
Proof. intros H. apply matches_one; [apply Ascii.eqb_refl | done]. Qed.

(** A starred class takes a run of its characters, then the rest matches. *)
Lemma matches_many_inv cls re s :
  matches (Many cls :: re) s ->
  exists run rest,
    s = run ++ rest /\ forallb (accepts cls) run = true /\ matches re rest.
Proof.
  intros H. remember (Many cls :: re) as r eqn:Er.
  induction H as [| | cls' re' s H _ | cls' re' c s Hc H IH]; try discriminate.
  - injection Er as -> ->. exists [], s. auto.
  - destruct (IH Er) as (run & rest & -> & Hrun & Hrest).
    injection Er as -> ->.
    exists (c :: run), rest. simpl. rewrite Hc, Hrun. auto.
Qed.

Lemma matches_many_intro cls re run rest :
  forallb (accepts cls) run = true -> matches re rest ->
  matches (Many cls :: re) (run ++ rest).
Proof.
  induction run as [| c run IH]; simpl; intros Hrun Hrest.
  - by apply matches_many_done.
  - apply andb_true_iff in Hrun as [Hc Hrun].
    apply matches_many_more; auto.
Qed.

Lemma matches_lit_inv w re s :
  matches (lit w ++ re) s ->
  exists rest, s = list_ascii_of_string w ++ rest /\ matches re rest.
Proof.
  unfold lit. revert s.
  induction (list_ascii_of_string w) as [| c cs IH]; simpl; intros s H.
  - eauto.
  - apply matches_one_inv in H as (c' & s' & -> & Hc & H).
    apply Ascii.eqb_eq in Hc as <-.
    destruct (IH _ H) as (rest & -> & Hrest). eauto.
Qed.

Lemma matches_lit_intro w re rest :
  matches re rest -> matches (lit w ++ re) (list_ascii_of_string w ++ rest).
Proof.
  intros H. unfold lit.
  induction (list_ascii_of_string w) as [| c cs IH]; simpl; [done |].
  apply matches_one; [apply Ascii.eqb_refl | done].
Qed.

(** [matchhere] decides whether some prefix of the input is in the
    language. *)
Lemma matchhere_sound re : forall s,
  matchhere re s = true -> exists a b, s = a ++ b /\ matches re a.
Proof.
  induction re as [| [cls | cls] re IH]; intros s.
  - intros _. exists [], s. split; [done | constructor].
  - destruct s as [| c s]; simpl; [done |].
    destruct (accepts cls c) eqn:Hc; [| done].
    intros (a & b & -> & Ha)%IH.
    exists (c :: a), b. split; [done | by constructor].
  - induction s as [| c s IHs]; rewrite matchhere_many.
    + destruct (matchhere re []) eqn:Hre; [| done].
      intros _. apply IH in Hre as (a & b & E & Ha).
      exists a, b. split; [done | by apply matches_many_done].
    + destruct (matchhere re (c :: s)) eqn:Hre.
      * intros _. apply IH in Hre as (a & b & E & Ha).
        exists a, b. split; [done | by apply matches_many_done].
      * destruct (accepts cls c) eqn:Hc; [| done].
        intros (a & b & -> & Ha)%IHs.
        exists (c :: a), b. split; [done | by apply matches_many_more].
Qed.

Lemma matchhere_complete re a :
  matches re a -> forall b, matchhere re (a ++ b) = true.
Proof.
  induction 1 as [| cls re c s Hc _ IH | cls re s _ IH | cls re c s Hc _ IH];
    intros b.
  - reflexivity.
  - simpl. by rewrite Hc, IH.
  - rewrite matchhere_many. by rewrite IH.
  - rewrite matchhere_many. simpl.
    destruct (matchhere re (c :: s ++ b)); [done |].
    by rewrite Hc, IH.
Qed.

Lemma search_unfold re s :
  search re s =
  if matchhere re s then true
  else match s with
       | [] => false
       | _ :: s' => search re s'
       end.
Proof. destruct s; reflexivity. Qed.

Lemma search_spec re s :
  search re s = true <-> exists a b c, s = a ++ b ++ c /\ matches re b.
Proof.
  split.
  - induction s as [| x s IH]; simpl.
    + destruct (matchhere re []) eqn:H; [| done].
      intros _. apply matchhere_sound in H as (b & c & E & Hb).
      exists [], b, c. auto.
    + destruct (matchhere re (x :: s)) eqn:H.
      * intros _. apply matchhere_sound in H as (b & c & E & Hb).
        exists [], b, c. auto.
      * intros (a & b & c & -> & Hb)%IH. exists (x :: a), b, c. auto.
  - intros (a & b & c & -> & Hb).
    induction a as [| x a IH]; rewrite search_unfold; simpl.
    + by rewrite (matchhere_complete _ _ Hb c).
    + by rewrite IH; destruct (matchhere re (x :: a ++ b ++ c)).
Qed.

End RegExpFacts.

(** ** The detector's regex *)
Section Detector.
Import RegExp RegExpFacts.

Lemma re_shape :
  re = Many Dot :: (lit (quoted "compiler") ++
       Many Word :: One (Lit ":"%char) :: Many Word :: One (Lit "["%char) ::
       Many Dot :: (lit (quoted "main") ++
       Many Word :: One (Lit ":"%char) :: Many Word ::
       (lit "function" ++ []))).
Proof. reflexivity. Qed.

(** X1.  For a payload of 8-bit code units (so without the line
    separators U+2028 and U+2029, at which [.] stops as well), the payloads
    the regex accepts: somewhere, the text ["compiler"], word
    characters, a colon, word characters, an opening bracket; then, with no
    line terminator in between, the text ["main"], word characters, a colon,
    word characters and the text [function]. *)
Lemma detector_language (payload : string) :
  test re payload = true <->
  exists pre w1 w2 mid w3 w4 post : list ascii,
    list_ascii_of_string payload =
      pre ++ list_ascii_of_string (quoted "compiler") ++ w1 ++ ":"%char :: w2 ++ "["%char ::
      mid ++ list_ascii_of_string (quoted "main") ++ w3 ++ ":"%char :: w4 ++
      list_ascii_of_string "function" ++ post
    /\ forallb is_word w1 = true /\ forallb is_word w2 = true
    /\ forallb (fun c => negb (is_line_terminator c)) mid = true
    /\ forallb is_word w3 = true /\ forallb is_word w4 = true.
Proof.
  unfold test. rewrite search_spec, re_shape. split.
  - intros (a & b & c & E & H).
    apply matches_many_inv in H as (run0 & ? & -> & _ & H).
    apply matches_lit_inv in H as (? & -> & H).
    apply matches_many_inv in H as (w1 & ? & -> & Hw1 & H).
    apply matches_char_inv in H as (? & -> & H).
    apply matches_many_inv in H as (w2 & ? & -> & Hw2 & H).
    apply matches_char_inv in H as (? & -> & H).
    apply matches_many_inv in H as (mid & ? & -> & Hmid & H).
    apply matches_lit_inv in H as (? & -> & H).
    apply matches_many_inv in H as (w3 & ? & -> & Hw3 & H).
    apply matches_char_inv in H as (? & -> & H).
    apply matches_many_inv in H as (w4 & ? & -> & Hw4 & H).
    apply matches_lit_inv in H as (? & -> & ->%matches_nil_inv).
    exists (a ++ run0), w1, w2, mid, w3, w4, c.
    split; [| done]. rewrite E. by simplify_list_eq.
  - intros (pre & w1 & w2 & mid & w3 & w4 & post & E & Hw1 & Hw2 & Hmid & Hw3 & Hw4).
    exists pre,
      (list_ascii_of_string (quoted "compiler") ++ w1 ++ ":"%char :: w2 ++ "["%char ::
       mid ++ list_ascii_of_string (quoted "main") ++ w3 ++ ":"%char :: w4 ++
       list_ascii_of_string "function" ++ []),
      post.
    split; [rewrite E; by simplify_list_eq |].
    apply matches_many_done.
    apply matches_lit_intro, matches_many_intro; [done |].
    apply matches_char_intro.
    apply matches_many_intro; [done |].
    apply matches_char_intro.
    apply matches_many_intro; [done |].
    apply matches_lit_intro, matches_many_intro; [done |].
    apply matches_char_intro.
    apply matches_many_intro; [done |].
    apply matches_lit_intro. constructor.
Qed.

End Detector.

(** ** Running the monad *)

Ltac unfold_M :=
  unfold mbind, M_bind, mret, M_ret, bind, ret, throw, try_catch, gets,
    modify, lift, record, deref, set_field in *.

(** ** The detector and restorer *)
Section Restorer.

Context (hb : Engine).

(** A payload the regex rejects is handed back as it is. *)
Lemma tryRestoring_raw payload w :
  RegExp.test re payload = false ->
  _tryRestoringPrecompiled hb payload w = (w, Normal (PSource payload)).
Proof. intros H. unfold _tryRestoringPrecompiled. by rewrite H. Qed.

(** A payload the regex accepts goes through [eval] and
    [handlebars.template]. *)
Lemma tryRestoring_precompiled payload w :
  RegExp.test re payload = true ->
  _tryRestoringPrecompiled hb payload w =
  (w, match eval hb ("template = " +:+ payload) with
      | Normal spec =>
          match template hb spec with
          | Normal t => Normal (PTemplate t)
          | Throw e => Throw e
          end
      | Throw e => Throw e
      end).
Proof.
  intros H. unfold _tryRestoringPrecompiled. rewrite H. unfold_M. simpl.
  destruct (eval hb _); [| done]. by destruct (template hb _).
Qed.

(** The restorer reads no state and writes none. *)
Lemma tryRestoring_world payload w :
  fst (_tryRestoringPrecompiled hb payload w) = w.
Proof.
  destruct (RegExp.test re payload) eqn:H.
  - by rewrite tryRestoring_precompiled.
  - by rewrite tryRestoring_raw.
Qed.

Lemma tryRestoring_pure payload w1 w2 :
  snd (_tryRestoringPrecompiled hb payload w1) =
  snd (_tryRestoringPrecompiled hb payload w2).
Proof.
  destruct (RegExp.test re payload) eqn:H.
  - by rewrite !tryRestoring_precompiled.
  - by rewrite !tryRestoring_raw.
Qed.

End Restorer.

(** C1 (failing input).  The artifact written with a space after each colon
    holds a [compiler] key bound to an array and a [main] key bound to a
    function, yet the regex rejects it: [\w*] lets word characters, not
    blanks, stand around the colons.  The restorer hands the text back as raw
    source, for every engine and state.  The same text without the two
    spaces is accepted; the template text [Hello {{name}}] is rejected and
    handed back unchanged. *)
Theorem tryRestoring_spaced_artifact_is_raw :
  RegExp.test re spaced_artifact = false
  /\ (forall hb w,
        _tryRestoringPrecompiled hb spaced_artifact w =
        (w, Normal (PSource spaced_artifact)))
  /\ RegExp.test re compact_artifact = true
  /\ RegExp.test re "Hello {{name}}" = false
  /\ (forall hb w,
        _tryRestoringPrecompiled hb "Hello {{name}}" w =
        (w, Normal (PSource "Hello {{name}}"))).
Proof.
  repeat split; try (vm_compute; reflexivity);
    intros hb w; by apply tryRestoring_raw.
Qed.

(** ** The template store *)
Section Store.

Context (hb : Engine).

Lemma addTemplates_nil w : addTemplates hb [] w = (w, Normal tt).
Proof. reflexivity. Qed.

(** An entry whose path is taken is passed over; its payload is not
    looked at. *)
Lemma addTemplates_skip path payload ts w :
  is_Some (partials (this w) !! path) ->
  addTemplates hb ((path, payload) :: ts) w = addTemplates hb ts w.
Proof.
  intros [x Hx]. unfold addTemplates. simpl. unfold_M. simpl.
  by rewrite Hx.
Qed.

Lemma addTemplates_register path payload ts w p :
  partials (this w) !! path = None ->
  _tryRestoringPrecompiled hb payload w = (w, Normal p) ->
  addTemplates hb ((path, payload) :: ts) w =
  addTemplates hb ts (registered path p w).
Proof.
  intros Hx Hp. unfold addTemplates. simpl. unfold_M. simpl.
  by rewrite Hx, Hp.
Qed.

Lemma addTemplates_fail path payload ts w e :
  partials (this w) !! path = None ->
  _tryRestoringPrecompiled hb payload w = (w, Throw e) ->
  addTemplates hb ((path, payload) :: ts) w =
  (w, Throw (new FormatError (message e))).
Proof.
  intros Hx Hp. unfold addTemplates. simpl. unfold_M. simpl.
  by rewrite Hx, Hp.
Qed.

(** The three cases of one entry. *)
Lemma addTemplates_cons path payload ts w :
  (is_Some (partials (this w) !! path)
   /\ addTemplates hb ((path, payload) :: ts) w = addTemplates hb ts w)
  \/ (exists p,
        partials (this w) !! path = None
        /\ _tryRestoringPrecompiled hb payload w = (w, Normal p)
        /\ addTemplates hb ((path, payload) :: ts) w =
           addTemplates hb ts (registered path p w))
  \/ (exists e,
        partials (this w) !! path = None
        /\ _tryRestoringPrecompiled hb payload w = (w, Throw e)
        /\ addTemplates hb ((path, payload) :: ts) w =
           (w, Throw (new FormatError (message e)))).
Proof.
  destruct (partials (this w) !! path) as [x |] eqn:Hx.
  - left. split; [done |]. apply addTemplates_skip. by rewrite Hx.
  - right.
    pose proof (tryRestoring_world hb payload w) as Hw.
    destruct (_tryRestoringPrecompiled hb payload w) as [w' [p | e]] eqn:Hp;
      simpl in Hw; subst w'.
    + left. exists p. eauto using addTemplates_register.
    + right. exists e. eauto using addTemplates_fail.
Qed.

Lemma registered_lookup path p w q :
  partials (this (registered path p w)) !! q =
  if decide (path = q) then Some p else partials (this w) !! q.
Proof. unfold registered. simpl. apply lookup_insert. Qed.

(** What is bound stays bound to the same value, however the call ends. *)
Lemma addTemplates_keeps ts : forall w q x,
  partials (this w) !! q = Some x ->
  partials (this (fst (addTemplates hb ts w))) !! q = Some x.
Proof.
  induction ts as [| [path payload] ts IH]; intros w q x Hq; [done |].
  destruct (addTemplates_cons path payload ts w)
    as [[_ ->] | [(p & Hn & _ & ->) | (e & _ & _ & ->)]]; [by apply IH | | done].
  apply IH. rewrite registered_lookup.
  destruct (decide (path = q)) as [-> | _]; [congruence | done].
Qed.

(** A path that no entry names is left as it was. *)
Lemma addTemplates_other ts : forall w q,
  q ∉ ts.*1 ->
  partials (this (fst (addTemplates hb ts w))) !! q = partials (this w) !! q.
Proof.
  induction ts as [| [path payload] ts IH]; intros w q Hq; [done |].
  rewrite fmap_cons, not_elem_of_cons in Hq. destruct Hq as [Hne Hq].
  destruct (addTemplates_cons path payload ts w)
    as [[_ ->] | [(p & Hn & _ & ->) | (e & _ & _ & ->)]]; [by apply IH | | done].
  rewrite IH by done. rewrite registered_lookup.
  by destruct (decide (path = q)) as [-> | _].
Qed.

(** After a call that returns, every path it was given is bound. *)
Lemma addTemplates_loads ts : forall w w' q,
  addTemplates hb ts w = (w', Normal tt) -> q ∈ ts.*1 ->
  is_Some (partials (this w') !! q).
Proof.
  induction ts as [| [path payload] ts IH]; intros w w' q Hrun Hq.
  { by apply elem_of_nil in Hq. }
  rewrite fmap_cons, elem_of_cons in Hq. simpl in Hq.
  assert (Hkeep : forall w0, is_Some (partials (this w0) !! q) ->
                  addTemplates hb ts w0 = (w', Normal tt) ->
                  is_Some (partials (this w') !! q)).
  { intros w0 [x Hx] Hrun0. exists x.
    pose proof (addTemplates_keeps ts w0 q x Hx) as H.
    by rewrite Hrun0 in H. }
  destruct (addTemplates_cons path payload ts w)
    as [[Hs E] | [(p & Hn & _ & E) | (e & _ & _ & E)]];
    rewrite E in Hrun; [| | done].
  - destruct Hq as [-> | Hq]; [by apply (Hkeep w) | by apply (IH w)].
  - destruct Hq as [-> | Hq]; [| by apply (IH _ _ _ Hrun)].
    apply (Hkeep _ ltac:(rewrite registered_lookup, decide_True; eauto) Hrun).
Qed.

Lemma isTemplateLoaded_eq path w :
  isTemplateLoaded path w =
  (w, Normal (bool_decide (is_Some (partials (this w) !! path)))).
Proof. reflexivity. Qed.

(** What the lookup finds on a new renderer. *)
Lemma inherited_partials_lookup q :
  inherited_partials !! q =
  if decide (q ∈ Object_prototype) then Some (PInherited q) else None.
Proof.
  unfold inherited_partials. destruct (decide (q ∈ Object_prototype)) as [Hq | Hq].
  - apply elem_of_list_to_map.
    + rewrite <- list_fmap_compose.
      apply (bool_decide_unpack _). vm_compute. exact I.
    + apply list_elem_of_fmap. by exists q.
  - apply not_elem_of_list_to_map. rewrite <- list_fmap_compose.
    intros (member & -> & Hin)%list_elem_of_fmap. by apply Hq.
Qed.

Lemma new_renderer_loaded q :
  snd (isTemplateLoaded q (mkWorld constructor ∅ [])) =
  Normal (bool_decide (q ∈ Object_prototype)).
Proof.
  rewrite isTemplateLoaded_eq. simpl.
  rewrite inherited_partials_lookup. f_equal.
  destruct (decide (q ∈ Object_prototype)).
  - by rewrite !bool_decide_true by eauto.
  - rewrite !bool_decide_false; [done | done | by apply is_Some_None].
Qed.

Lemma constructor_is_inherited :
  partials constructor !! "constructor" = Some (PInherited "constructor").
Proof.
  simpl. rewrite inherited_partials_lookup. apply decide_True.
  apply (bool_decide_unpack _). vm_compute. exact I.
Qed.

(** C2 (failing input).  On a new renderer the lookup finds the properties
    of [Object.prototype]: [isTemplateLoaded] is true of ["constructor"]
    before anything is registered, and [addTemplates] passes over an entry
    for that path, which stays bound to the inherited property whatever
    payload is given (3).  For every other path first registration wins:
    (1) a path that is bound keeps its value through any later
    [addTemplates], whether that call returns or throws; (2) an entry for a
    bound path is skipped without an error, whatever its payload;
    (4) [isTemplateLoaded] stays false for a path no call has named, is
    true for every path of a call that returned, and once true stays true;
    (5) registering [x] under a free path [a] twice and then [y] leaves [a]
    bound to what the restorer made of [x]; [isTemplateLoaded a] is false
    before the first call and true after it. *)
Theorem addTemplates_first_registration_wins :
  (forall ts w q x,
      partials (this w) !! q = Some x ->
      partials (this (fst (addTemplates hb ts w))) !! q = Some x)
  /\ (forall w q y,
        is_Some (partials (this w) !! q) ->
        addTemplates hb [(q, y)] w = (w, Normal tt))
  /\ ((forall q,
         snd (isTemplateLoaded q (mkWorld constructor ∅ [])) =
         Normal (bool_decide (q ∈ Object_prototype)))
      /\ snd (isTemplateLoaded "constructor" (mkWorld constructor ∅ []))
         = Normal true
      /\ forall x,
           addTemplates hb [("constructor", x)] (mkWorld constructor ∅ []) =
             (mkWorld constructor ∅ [], Normal tt)
           /\ partials constructor !! "constructor" =
              Some (PInherited "constructor"))
  /\ (forall ts w q,
        q ∉ ts.*1 ->
        snd (isTemplateLoaded q w) = Normal false ->
        snd (isTemplateLoaded q (fst (addTemplates hb ts w))) = Normal false)
  /\ (forall ts w w' q,
        addTemplates hb ts w = (w', Normal tt) -> q ∈ ts.*1 ->
        snd (isTemplateLoaded q w') = Normal true)
  /\ (forall ts w q,
        snd (isTemplateLoaded q w) = Normal true ->
        snd (isTemplateLoaded q (fst (addTemplates hb ts w))) = Normal true)
  /\ (forall w a x y p,
        partials (this w) !! a = None ->
        _tryRestoringPrecompiled hb x w = (w, Normal p) ->
        exists w1,
          snd (isTemplateLoaded a w) = Normal false
          /\ addTemplates hb [(a, x)] w = (w1, Normal tt)
          /\ snd (isTemplateLoaded a w1) = Normal true
          /\ addTemplates hb [(a, x)] w1 = (w1, Normal tt)
          /\ addTemplates hb [(a, y)] w1 = (w1, Normal tt)
          /\ partials (this w1) !! a = Some p).
Proof.
  split_and!.
  - intros ts w q x. apply addTemplates_keeps.
  - intros w q y Hq. by rewrite addTemplates_skip.
  - apply new_renderer_loaded.
  - rewrite new_renderer_loaded. vm_compute. reflexivity.
  - intros x. split; [| apply constructor_is_inherited].
    apply addTemplates_skip.
    pose proof constructor_is_inherited as Hc. simpl in *. rewrite Hc. eauto.
  - intros ts w q Hq. rewrite !isTemplateLoaded_eq. simpl.
    rewrite addTemplates_other by done. done.
  - intros ts w w' q Hrun Hq. rewrite isTemplateLoaded_eq. simpl.
    by rewrite bool_decide_true by eauto using addTemplates_loads.
  - intros ts w q. rewrite !isTemplateLoaded_eq. cbn [snd].
    intros [= [x Hx]%bool_decide_eq_true].
    by rewrite (addTemplates_keeps ts w q x Hx), bool_decide_true.
  - intros w a x y p Ha Hp. exists (registered a p w).
    assert (Hb : partials (this (registered a p w)) !! a = Some p).
    { by rewrite registered_lookup, decide_True. }
    split_and!; [| | | | | done].
    + rewrite isTemplateLoaded_eq. simpl.
      by rewrite Ha, (bool_decide_false _ is_Some_None).
    + by rewrite (addTemplates_register _ _ _ _ p).
    + rewrite isTemplateLoaded_eq. cbn [snd].
      by rewrite Hb, bool_decide_true.
    + apply addTemplates_skip. by rewrite Hb.
    + apply addTemplates_skip. by rewrite Hb.
Qed.

End Store.

Lemma addTemplates_first_registration_wins_witness :
  partials (this (fst (addTemplates Stub.engine [("a", "{{y}}")]
    (fst (addTemplates Stub.engine [("a", "{{x}}")] Stub.fresh_world)))))
    !! "a" = Some (PSource "{{x}}").
Proof.
  apply (proj1 (addTemplates_first_registration_wins Stub.engine)).
  vm_compute. reflexivity.
Defined.

(** ** The render pipeline *)
Section Render.

Lemma render_lookup path context w :
  render path context w =
  match partials (this w) !! path with
  | None =>
      (at_lookup path context w,
       Throw (new TemplateNotFoundError ("template not found: " +:+ path)))
  | Some p =>
      (result ← try_catch (call_partial p (context_object context w))
                          (fun e => throw (new RenderError (message e)));
       fns ← gets _decorators;
       try_catch (apply_decorators 0 fns result)
                 (fun e => throw (new DecoratorError (message e))))
        (at_lookup path context w)
  end.
Proof.
  unfold render, at_lookup, augmented, or_empty_object.
  destruct context as [l |]; unfold_M; simpl;
    destruct (_translator (this w)) as [tr |]; simpl;
    rewrite ?lookup_insert_eq, ?insert_insert_eq; simpl;
    by destruct (partials (this w) !! path).
Qed.

Lemma invoked_template seen cs : invoked (CallTemplate seen :: cs) = invoked cs.
Proof. reflexivity. Qed.

Lemma invoked_decorator i s cs :
  invoked (CallDecorator i s :: cs) = i :: invoked cs.
Proof. reflexivity. Qed.

Lemma executed_decorator i s cs :
  executed (CallDecorator i s :: cs) = executed cs.
Proof. reflexivity. Qed.

(** The decorator loop returns what the chain computes, having called
    every decorator once, in order. *)
Lemma apply_decorators_returns fns : forall i s w out,
  pipeline fns s = Normal out ->
  exists cs,
    apply_decorators i fns s w =
      (mkWorld (this w) (heap w) (calls w ++ cs), Normal out)
    /\ invoked cs = seq i (length fns) /\ executed cs = [].
Proof.
  induction fns as [| fn fns IH]; intros i s w out H; simpl in *.
  - exists []. injection H as ->. rewrite app_nil_r. by destruct w.
  - destruct (fn s) as [s' |] eqn:Hfn; [| done].
    destruct (IH (S i) s' (mkWorld (this w) (heap w) (calls w ++ [CallDecorator i s])) out H)
      as (cs & E & Hinv & Hex). simpl in E.
    exists (CallDecorator i s :: cs). split_and!.
    + unfold_M. simpl. rewrite E. by rewrite <- app_assoc.
    + by rewrite invoked_decorator, Hinv.
    + by rewrite executed_decorator.
Qed.

(** The loop stops at the first decorator that throws: the ones before it
    were called, it was called, and none after it. *)
Lemma apply_decorators_throws (pre : list Decorator) :
  forall i s w (d : Decorator) (post : list Decorator) y e,
  pipeline pre s = Normal y -> d y = Throw e ->
  exists cs,
    apply_decorators i (pre ++ d :: post) s w =
      (mkWorld (this w) (heap w) (calls w ++ cs), Throw e)
    /\ invoked cs = seq i (S (length pre)) /\ executed cs = [].
Proof.
  induction pre as [| fn pre IH]; intros i s w d post y e H Hd; simpl in *.
  - injection H as ->. exists [CallDecorator i y].
    unfold_M. simpl. by rewrite Hd.
  - destruct (fn s) as [s' |] eqn:Hfn; [| done].
    destruct (IH (S i) s' (mkWorld (this w) (heap w) (calls w ++ [CallDecorator i s]))
                 d post y e H Hd) as (cs & E & Hinv & Hex). simpl in E.
    exists (CallDecorator i s :: cs). split_and!.
    + unfold_M. simpl. rewrite E. by rewrite <- app_assoc.
    + by rewrite invoked_decorator, Hinv.
    + by rewrite executed_decorator.
Qed.

(** Rendering a path bound to an executable template: the template is
    run on the augmented context object, then the decorators. *)
Lemma render_template path context w t :
  partials (this w) !! path = Some (PTemplate t) ->
  let seen := augmented path (_translator (this w)) (context_on_entry context w) in
  let w1 := mkWorld (this w) (<[context_object context w := seen]> (heap w))
                    (calls w ++ [CallTemplate seen]) in
  render path context w =
  match t seen with
  | Throw e => (w1, Throw (new RenderError (message e)))
  | Normal out =>
      try_catch (apply_decorators 0 (_decorators (this w)) out)
                (fun e => throw (new DecoratorError (message e))) w1
  end.
Proof.
  intros H. rewrite render_lookup, H. unfold at_lookup.
  unfold call_partial. unfold_M. simpl. rewrite lookup_insert_eq. simpl.
  by destruct (t _).
Qed.

(** Rendering a path bound to raw source text: the call of the text
    throws, and [render] reports a RenderError. *)
Lemma render_source path context w source :
  partials (this w) !! path = Some (PSource source) ->
  render path context w =
  (at_lookup path context w,
   Throw (new RenderError "template is not a function")).
Proof. intros H. by rewrite render_lookup, H. Qed.

(** The decorator loop completes as the chain does, and writes nothing but
    the list of calls. *)
Lemma apply_decorators_outcome fns : forall i s w,
  snd (apply_decorators i fns s w) = pipeline fns s.
Proof.
  induction fns as [| fn fns IH]; intros i s w; simpl; [done |].
  unfold_M. simpl. destruct (fn s) as [s' |]; [apply IH | done].
Qed.

Lemma apply_decorators_frame fns : forall i s w,
  this (fst (apply_decorators i fns s w)) = this w
  /\ heap (fst (apply_decorators i fns s w)) = heap w
  /\ exists cs, calls (fst (apply_decorators i fns s w)) = calls w ++ cs
                /\ executed cs = [].
Proof.
  induction fns as [| fn fns IH]; intros i s w; simpl.
  - split_and!; [done | done |]. exists []. by rewrite app_nil_r.
  - unfold_M. simpl. destruct (fn s) as [s' |]; simpl.
    + destruct (IH (S i) s' (mkWorld (this w) (heap w)
                               (calls w ++ [CallDecorator i s])))
        as (H1 & H2 & cs & H3 & H4).
      split_and!; [done | done |].
      exists (CallDecorator i s :: cs). rewrite H3. simpl.
      by rewrite <- app_assoc.
    + split_and!; [done | done |]. by exists [CallDecorator i s].
Qed.

Lemma try_catch_decorators_world fns s w :
  fst (try_catch (apply_decorators 0 fns s)
         (fun e => throw (new DecoratorError (message e))) w) =
  fst (apply_decorators 0 fns s w).
Proof.
  unfold try_catch, throw. by destruct (apply_decorators 0 fns s w) as [w1 [|]].
Qed.

Lemma try_catch_decorators_outcome fns s w :
  snd (try_catch (apply_decorators 0 fns s)
         (fun e => throw (new DecoratorError (message e))) w) =
  match pipeline fns s with
  | Normal out => Normal out
  | Throw e => Throw (new DecoratorError (message e))
  end.
Proof.
  rewrite <- (apply_decorators_outcome fns 0 s w).
  unfold try_catch, throw. by destruct (apply_decorators 0 fns s w) as [w1 [|]].
Qed.

(** How [render] completes on a path bound to an executable template. *)
Lemma render_completion_template path context w t :
  partials (this w) !! path = Some (PTemplate t) ->
  snd (render path context w) =
  match t (augmented path (_translator (this w)) (context_on_entry context w)) with
  | Throw e => Throw (new RenderError (message e))
  | Normal out =>
      match pipeline (_decorators (this w)) out with
      | Normal final => Normal final
      | Throw e => Throw (new DecoratorError (message e))
      end
  end.
Proof.
  intros H. rewrite (render_template _ _ _ _ H). simpl.
  destruct (t _) as [out |]; [| done].
  apply try_catch_decorators_outcome.
Qed.

(** For a path that the lookup does not find, [render] throws a
    TemplateNotFoundError whose message is the text "template not found: "
    followed by the path; it has called no template and no decorator, and
    the renderer is as it was. *)
Theorem render_unregistered_path path context w :
  partials (this w) !! path = None ->
  exists w',
    render path context w =
      (w', Throw (new TemplateNotFoundError ("template not found: " +:+ path)))
    /\ calls w' = calls w
    /\ this w' = this w.
Proof.
  intros H. rewrite render_lookup, H. by eexists.
Qed.

(** C3 (failing input).  On a new renderer no template is registered, yet
    [render] of the path ["toString"] throws no TemplateNotFoundError: the
    lookup finds the method the partials inherit from [Object.prototype],
    [render] calls it as the template and hands its result,
    ["[object Undefined]"], to the decorators.  [render] of ["__proto__"]
    throws a RenderError, the inherited value not being callable. *)
Theorem render_inherited_name_is_found :
  (forall context,
      exists w' seen,
        render "toString" context (mkWorld constructor ∅ []) =
          (w', Normal "[object Undefined]")
        /\ calls w' = [CallTemplate seen])
  /\ (forall context (f : string -> string),
        exists w' seen,
          render "toString" context
            (fst (addDecorator (fun s => Normal (f s)) (mkWorld constructor ∅ [])))
          = (w', Normal (f "[object Undefined]"))
          /\ calls w' = [CallTemplate seen; CallDecorator 0 "[object Undefined]"])
  /\ (forall context,
        exists w',
          render "__proto__" context (mkWorld constructor ∅ []) =
            (w', Throw (new RenderError "template is not a function"))
          /\ calls w' = []).
Proof.
  assert (Hfound : forall member,
            bool_decide (member ∈ Object_prototype) = true ->
            inherited_partials !! member = Some (PInherited member)).
  { intros member Hm%bool_decide_eq_true.
    rewrite inherited_partials_lookup. by apply decide_True. }
  split_and!.
  - intros context. rewrite render_lookup. simpl.
    rewrite (Hfound "toString") by (vm_compute; reflexivity).
    unfold_M. simpl. by eexists _, _.
  - intros context f. rewrite render_lookup. simpl.
    rewrite (Hfound "toString") by (vm_compute; reflexivity).
    unfold_M. simpl. by eexists _, _.
  - intros context. rewrite render_lookup. simpl.
    rewrite (Hfound "__proto__") by (vm_compute; reflexivity).
    by eexists.
Qed.

(** C10.  When [render] throws TemplateNotFoundError, the caller's context
    object has already been written: its [template] is the path and, with
    a translator set, its [locale_name] is the translator's locale; without
    one, [locale_name] is left as it was. *)
Theorem render_unregistered_path_writes_context path l o w :
  partials (this w) !! path = None ->
  heap w !! l = Some o ->
  exists w' o',
    render path (Some l) w =
      (w', Throw (new TemplateNotFoundError ("template not found: " +:+ path)))
    /\ heap w' !! l = Some o'
    /\ o' = augmented path (_translator (this w)) o
    /\ o' !! "template" = Some (VStr path)
    /\ (forall tr, _translator (this w) = Some tr ->
          o' !! "locale_name" = Some (VStr (getLocale tr)))
    /\ (_translator (this w) = None -> o' !! "locale_name" = o !! "locale_name").
Proof.
  intros H Hl. rewrite render_lookup, H.
  eexists _, (augmented path (_translator (this w)) o).
  split; [done |]. simpl. rewrite Hl, lookup_insert_eq. simpl.
  split_and!; [done | done | | |].
  - unfold augmented. destruct (_translator (this w)).
    + by rewrite lookup_insert_ne, lookup_insert_eq.
    + by rewrite lookup_insert_eq.
  - intros tr ->. simpl. by rewrite lookup_insert_eq.
  - intros ->. simpl. by rewrite lookup_insert_ne.
Qed.

(** What the template of a registered path is called with. *)
Lemma render_template_call path context t w :
  partials (this w) !! path = Some (PTemplate t) ->
  exists w' c rest,
    render path context w = (w', c)
    /\ calls w' =
       calls w
       ++ CallTemplate (augmented path (_translator (this w))
                                  (context_on_entry context w)) :: rest
    /\ executed rest = [].
Proof.
  intros H. rewrite (render_template _ _ _ _ H). simpl.
  destruct (t _) as [out |] eqn:Ht.
  - destruct (pipeline (_decorators (this w)) out) as [final | e] eqn:Hp.
    + unfold try_catch.
      match goal with
      | |- context [apply_decorators 0 ?fns out ?w1] =>
          destruct (apply_decorators_returns fns 0 out w1 final Hp)
            as (cs & E & _ & Hex)
      end.
      rewrite E. simpl.
      eexists _, _, cs. by rewrite <- app_assoc.
    + assert (exists (pre : list Decorator) (d : Decorator) (post : list Decorator) y,
                _decorators (this w) = pre ++ d :: post
                /\ pipeline pre out = Normal y /\ d y = Throw e)
        as (pre & d & post & y & Efns & Hpre & Hd).
      { clear -Hp. revert out Hp.
        induction (_decorators (this w)) as [| fn fns IH]; intros out Hp;
          simpl in Hp; [done |].
        destruct (fn out) as [s' |] eqn:Hfn.
        - destruct (IH _ Hp) as (pre & d & post & y & -> & Hpre & Hd).
          exists (fn :: pre), d, post, y. simpl. by rewrite Hfn.
        - injection Hp as ->. by exists [], fn, fns, out. }
      unfold try_catch. rewrite Efns.
      match goal with
      | |- context [apply_decorators 0 _ out ?w1] =>
          destruct (apply_decorators_throws pre 0 out w1 d post y e Hpre Hd)
            as (cs & E & _ & Hex)
      end.
      rewrite E. simpl.
      eexists _, _, cs. by rewrite <- app_assoc.
  - eexists _, _, []. done.
Qed.

(** C6, as amended.  For a path bound to an executable template, [render]
    runs that template once, on a context whose [template] is the path and,
    with a translator set, whose [locale_name] is the translator's locale;
    every other property is the caller's.  What [render] completes with is
    computed from what the template returns on that context: a RenderError
    with the message of its throw, else its output through the decorators.
    After [setTranslator] with a translator [tr], the [locale_name] the
    template is run on is [getLocale tr]. *)
Theorem render_template_sees_added_fields path context t w :
  partials (this w) !! path = Some (PTemplate t) ->
  (exists w' seen rest,
      render path context w =
        (w', match t seen with
             | Throw e => Throw (new RenderError (message e))
             | Normal out =>
                 match pipeline (_decorators (this w)) out with
                 | Normal final => Normal final
                 | Throw e => Throw (new DecoratorError (message e))
                 end
             end)
      /\ calls w' = calls w ++ CallTemplate seen :: rest
      /\ executed rest = []
      /\ seen !! "template" = Some (VStr path)
      /\ (forall tr, _translator (this w) = Some tr ->
            seen !! "locale_name" = Some (VStr (getLocale tr)))
      /\ (forall k, k <> "template" -> k <> "locale_name" ->
            seen !! k = context_on_entry context w !! k))
  /\ (forall tr,
        exists w' seen rest,
          render path context (fst (setTranslator (Some tr) w)) =
            (w', match t seen with
                 | Throw e => Throw (new RenderError (message e))
                 | Normal out =>
                     match pipeline (_decorators (this w)) out with
                     | Normal final => Normal final
                     | Throw e => Throw (new DecoratorError (message e))
                     end
                 end)
          /\ calls w' = calls w ++ CallTemplate seen :: rest
          /\ executed rest = []
          /\ seen !! "template" = Some (VStr path)
          /\ seen !! "locale_name" = Some (VStr (getLocale tr))).
Proof.
  intros H. split.
  - destruct (render_template_call path context t w H)
      as (w' & c & rest & E & Hcalls & Hex).
    pose proof (render_completion_template path context w t H) as Hc.
    rewrite E in Hc. simpl in Hc. subst c.
    eexists w', _, rest. split_and!; [exact E | done | done | | |].
    + unfold augmented. destruct (_translator (this w)).
      * by rewrite lookup_insert_ne, lookup_insert_eq.
      * by rewrite lookup_insert_eq.
    + intros tr ->. simpl. by rewrite lookup_insert_eq.
    + intros k Hk1 Hk2. unfold augmented. destruct (_translator (this w)).
      * by rewrite !lookup_insert_ne.
      * by rewrite lookup_insert_ne.
  - intros tr.
    destruct (render_template_call path context t
                (fst (setTranslator (Some tr) w)) H)
      as (w' & c & rest & E & Hcalls & Hex).
    pose proof (render_completion_template path context
                  (fst (setTranslator (Some tr) w)) t H) as Hc.
    rewrite E in Hc. simpl in Hc. subst c.
    eexists w', _, rest. split_and!; [exact E | done | done | |].
    + simpl. by rewrite lookup_insert_ne, lookup_insert_eq.
    + simpl. by rewrite lookup_insert_eq.
Qed.

(** C4.  With the template of a registered path returning [out]:
    (1) if the chain of decorators computes [final] from [out], [render]
    returns [final], having called every decorator once in registration
    order; (2) if the decorators before [d] compute [y] and [d] throws on
    [y], [render] throws a DecoratorError with the message of that throw,
    and no decorator after [d] was called; (3) two decorators added in the
    order [f1], [f2] to a renderer without decorators give [f2 (f1 out)],
    [f2] having been called with [f1 out]. *)
Theorem render_decorator_chain path context t w out :
  partials (this w) !! path = Some (PTemplate t) ->
  t (augmented path (_translator (this w)) (context_on_entry context w))
    = Normal out ->
  (forall final,
      pipeline (_decorators (this w)) out = Normal final ->
      exists w' cs,
        render path context w = (w', Normal final)
        /\ calls w' = calls w ++ cs
        /\ invoked cs = seq 0 (length (_decorators (this w))))
  /\ (forall (pre : list Decorator) (d : Decorator) (post : list Decorator) y e,
        _decorators (this w) = pre ++ d :: post ->
        pipeline pre out = Normal y ->
        d y = Throw e ->
        exists w' cs,
          render path context w = (w', Throw (new DecoratorError (message e)))
          /\ calls w' = calls w ++ cs
          /\ invoked cs = seq 0 (S (length pre)))
  /\ (forall f1 f2 : string -> string,
        _decorators (this w) = [] ->
        exists w' seen,
          render path context
            (fst (addDecorator (fun s => Normal (f2 s))
               (fst (addDecorator (fun s => Normal (f1 s)) w))))
          = (w', Normal (f2 (f1 out)))
          /\ calls w' =
             calls w ++ [CallTemplate seen; CallDecorator 0 out;
                         CallDecorator 1 (f1 out)]).
Proof.
  intros H Ht. split_and!.
  - intros final Hp. rewrite (render_template _ _ _ _ H). simpl. rewrite Ht.
    unfold try_catch.
    match goal with
    | |- context [apply_decorators 0 ?fns out ?w1] =>
        destruct (apply_decorators_returns fns 0 out w1 final Hp)
          as (cs & E & Hinv & _)
    end.
    rewrite E. simpl.
    eexists _, (CallTemplate _ :: cs). rewrite <- app_assoc.
    split_and!; [done | done |]. by rewrite invoked_template.
  - intros pre d post y e Efns Hpre Hd.
    rewrite (render_template _ _ _ _ H). simpl. rewrite Ht.
    unfold try_catch. rewrite Efns.
    match goal with
    | |- context [apply_decorators 0 _ out ?w1] =>
        destruct (apply_decorators_throws pre 0 out w1 d post y e Hpre Hd)
          as (cs & E & Hinv & _)
    end.
    rewrite E. simpl.
    eexists _, (CallTemplate _ :: cs). rewrite <- app_assoc.
    split_and!; [done | done |]. by rewrite invoked_template.
  - intros f1 f2 Hnone.
    match goal with
    | |- context [render path context ?w2] =>
        rewrite (render_template path context w2 t H)
    end.
    unfold context_on_entry, context_object in *.
    cbn [addDecorator modify fst this heap calls _translator _decorators
         partials] in *.
    rewrite Ht, Hnone.
    unfold_M. simpl. eexists _, _. split; [done |].
    by rewrite <- !app_assoc.
Qed.

End Render.

(** *** Closed instances on the stand-in engine *)

Lemma render_unregistered_path_witness :
  exists w',
    render "unregistered/path" None Stub.fresh_world =
      (w', Throw (new TemplateNotFoundError
                      ("template not found: " +:+ "unregistered/path")))
    /\ calls w' = calls Stub.fresh_world
    /\ this w' = this Stub.fresh_world.
Proof.
  apply (render_unregistered_path "unregistered/path" None Stub.fresh_world).
  reflexivity.
Defined.

Lemma render_unregistered_path_writes_context_witness :
  let w := fst (setTranslator (Some Stub.en_US)
                  (Stub.with_object 0 {[ "name" := VStr "World" ]}
                     Stub.fresh_world)) in
  exists w' o',
    render "unregistered/path" (Some 0) w =
      (w', Throw (new TemplateNotFoundError
                      ("template not found: " +:+ "unregistered/path")))
    /\ heap w' !! 0 = Some o'
    /\ o' = augmented "unregistered/path" (_translator (this w))
                      {[ "name" := VStr "World" ]}
    /\ o' !! "template" = Some (VStr "unregistered/path")
    /\ (forall tr, _translator (this w) = Some tr ->
          o' !! "locale_name" = Some (VStr (getLocale tr)))
    /\ (_translator (this w) = None ->
        o' !! "locale_name" = ({[ "name" := VStr "World" ]} : Obj) !! "locale_name").
Proof.
  apply (render_unregistered_path_writes_context "unregistered/path" 0
           {[ "name" := VStr "World" ]}); vm_compute; reflexivity.
Defined.

Lemma render_template_sees_added_fields_witness :
  exists w' seen rest,
    render "p" None
      (fst (setTranslator (Some Stub.en_US)
              (Stub.world_with "p" "{{template}} in {{locale_name}}")))
    = (w', match Stub.template_of "{{template}} in {{locale_name}}" seen with
           | Throw e => Throw (new RenderError (message e))
           | Normal out =>
               match pipeline
                       (_decorators
                          (this (Stub.world_with "p"
                                   "{{template}} in {{locale_name}}"))) out with
               | Normal final => Normal final
               | Throw e => Throw (new DecoratorError (message e))
               end
           end)
    /\ calls w' = calls (Stub.world_with "p" "{{template}} in {{locale_name}}")
                 ++ CallTemplate seen :: rest
    /\ executed rest = []
    /\ seen !! "template" = Some (VStr "p")
    /\ seen !! "locale_name" = Some (VStr (getLocale Stub.en_US)).
Proof.
  apply (proj2 (render_template_sees_added_fields "p" None
                  (Stub.template_of "{{template}} in {{locale_name}}")
                  (Stub.world_with "p" "{{template}} in {{locale_name}}")
                  ltac:(vm_compute; reflexivity))).
Defined.

(** C6 (counterexample).  A path registered with raw text is a registered
    path, and [render] of it runs no template at all: it throws a
    RenderError, on any engine, before anything could see the context. *)
Lemma render_raw_text_runs_no_template :
  RegExp.test re "{{locale_name}}" = false
  /\ forall hb context,
       let w := fst (setTranslator (Some Stub.en_US)
                       (fst (addTemplates hb [("p", "{{locale_name}}")]
                               Stub.fresh_world))) in
       snd (isTemplateLoaded "p" w) = Normal true
       /\ snd (render "p" context w) =
          Throw (new RenderError "template is not a function")
       /\ executed (calls (fst (render "p" context w))) = [].
Proof.
  split; [vm_compute; reflexivity |]. intros hb context.
  rewrite (addTemplates_register hb "p" "{{locale_name}}" [] Stub.fresh_world
             (PSource "{{locale_name}}"))
    by (try apply tryRestoring_raw; vm_compute; reflexivity).
  rewrite addTemplates_nil. simpl.
  rewrite (render_source "p" context _ "{{locale_name}}")
    by (vm_compute; reflexivity).
  split_and!; [vm_compute; reflexivity | done | done].
Qed.

Lemma render_decorator_chain_witness :
  (exists w' seen,
      render "p" None
        (fst (addDecorator (fun s => Normal (s +:+ "B"))
           (fst (addDecorator (fun s => Normal (s +:+ "A"))
              (Stub.world_with "p" "X")))))
      = (w', Normal "XAB")
      /\ calls w' = calls (Stub.world_with "p" "X")
                   ++ [CallTemplate seen; CallDecorator 0 "X";
                       CallDecorator 1 "XA"])
  /\ (let w := fst (addDecorator (Stub.append "B")
                     (fst (addDecorator Stub.boom (Stub.world_with "p" "X")))) in
      exists w' cs,
        render "p" None w = (w', Throw (new DecoratorError "boom"))
        /\ calls w' = calls w ++ cs
        /\ invoked cs = [0]).
Proof.
  split.
  - apply (proj2 (proj2 (render_decorator_chain "p" None
                           (Stub.template_of "X") (Stub.world_with "p" "X") "X"
                           ltac:(vm_compute; reflexivity)
                           ltac:(vm_compute; reflexivity)))
             (fun s => s +:+ "A") (fun s => s +:+ "B")).
    reflexivity.
  - apply (proj1 (proj2 (render_decorator_chain "p" None
                           (Stub.template_of "X")
                           (fst (addDecorator (Stub.append "B")
                              (fst (addDecorator Stub.boom
                                 (Stub.world_with "p" "X")))))
                           "X"
                           ltac:(vm_compute; reflexivity)
                           ltac:(vm_compute; reflexivity)))
             [] Stub.boom [Stub.append "B"] "X" (new HostError "boom"));
      reflexivity.
Defined.

(** ** Errors of the multi-entry operations *)
Section FormatErrors.

Context (hb : Engine).

(** C5 (failing input).  When the restorer throws [e] on a payload,
    [addTemplates] throws a FormatError built from the message of [e]
    alone: it has no details, and the path of the entry is nowhere in it.
    The same payload under two different paths gives the same
    exception. *)
Theorem addTemplates_format_error_omits_path w p1 p2 payload rest1 rest2 e :
  partials (this w) !! p1 = None ->
  partials (this w) !! p2 = None ->
  _tryRestoringPrecompiled hb payload w = (w, Throw e) ->
  addTemplates hb ((p1, payload) :: rest1) w =
    (w, Throw (mkExn FormatError (message e) None))
  /\ addTemplates hb ((p2, payload) :: rest2) w =
    (w, Throw (mkExn FormatError (message e) None)).
Proof.
  intros H1 H2 He. split; by apply addTemplates_fail.
Qed.

End FormatErrors.

Lemma addTemplates_format_error_omits_path_witness :
  addTemplates Stub.engine [("a", truncated_artifact); ("b", "{{ok}}")]
               Stub.fresh_world =
    (Stub.fresh_world, Throw (mkExn FormatError (message Stub.syntax_error) None))
  /\ addTemplates Stub.engine [("b", truncated_artifact)] Stub.fresh_world =
    (Stub.fresh_world, Throw (mkExn FormatError (message Stub.syntax_error) None)).
Proof.
  apply (addTemplates_format_error_omits_path Stub.engine Stub.fresh_world
           "a" "b" truncated_artifact [("b", "{{ok}}")] [] Stub.syntax_error);
    vm_compute; reflexivity.
Defined.

(** ** The preprocessor *)
Section PreProcessor.

Context (hb : Engine).

Lemma preprocess_each_cons_ok path source s rest processed w :
  precompile hb source handlebarsOptions = Normal s ->
  preprocess_each hb ((path, source) :: rest) processed w =
  preprocess_each hb rest (<[path := s]> processed) w.
Proof. intros H. simpl. unfold_M. simpl. by rewrite H. Qed.

Lemma preprocess_each_cons_throw path source e rest processed w :
  precompile hb source handlebarsOptions = Throw e ->
  preprocess_each hb ((path, source) :: rest) processed w =
  (w, Throw (new_with CompileError (message e) {[ "path" := VStr path ]})).
Proof. intros H. simpl. unfold_M. simpl. by rewrite H. Qed.

(** When every template precompiles, the result holds, for each path of
    the (duplicate-free) list, the serialization of its template, and
    keeps what [processed] held for the other paths. *)
Lemma preprocess_each_returns ts : forall processed w,
  precompiles hb ts -> NoDup ts.*1 ->
  exists m,
    preprocess_each hb ts processed w = (w, Normal m)
    /\ forall q s,
         m !! q = Some s <->
         (exists source, (q, source) ∈ ts
                         /\ precompile hb source handlebarsOptions = Normal s)
         \/ ((q ∉ ts.*1) /\ processed !! q = Some s).
Proof.
  induction ts as [| [path source] ts IH]; intros processed w Hok Hnd.
  - exists processed. split; [done |]. intros q s. split.
    + intros H. right. split; [apply not_elem_of_nil | done].
    + intros [(source & Hin & _) | [_ H]]; [by apply elem_of_nil in Hin | done].
  - apply Forall_cons in Hok as [[s0 Hs0] Hok]. simpl in Hs0.
    rewrite fmap_cons in Hnd. apply NoDup_cons in Hnd as [Hnew Hnd].
    simpl in Hnew.
    destruct (IH (<[path := s0]> processed) w Hok Hnd) as (m & E & Hm).
    exists m. rewrite (preprocess_each_cons_ok _ _ s0) by done.
    split; [done |]. intros q s. rewrite Hm. rewrite fmap_cons. simpl.
    split.
    + intros [(source' & Hin & Hs) | [Hq Hl]].
      * left. exists source'. split; [by apply elem_of_cons; right | done].
      * destruct (decide (path = q)) as [<- | Hne].
        -- rewrite lookup_insert_eq in Hl. injection Hl as <-.
           left. exists source. split; [by apply elem_of_cons; left | done].
        -- rewrite lookup_insert_ne in Hl by done.
           right. split; [| done]. by apply not_elem_of_cons.
    + intros [(source' & Hin & Hs) | [Hq Hl]].
      * apply elem_of_cons in Hin as [[= <- <-] | Hin].
        -- right. split; [done |].
           rewrite lookup_insert_eq. congruence.
        -- left. by exists source'.
      * apply not_elem_of_cons in Hq as [Hne Hq].
        right. split; [done |]. by rewrite lookup_insert_ne.
Qed.



End PreProcessor.


(** ** Rendering a string *)
Section RenderString.

Context (hb : Engine).

(** C8.  [renderString], on [source] and the context object as it stands
    (the empty object when none is given): when [compile] throws, it
    throws a CompileError with that message and runs nothing; otherwise it
    runs the template [compile] returned, once, on the context object as
    the caller gave it, throws a RenderError with the message of a throw of
    the template, and returns the template's result as it is.  No decorator
    is called, whatever decorators are registered; the renderer, its
    template store included, is left as it was; the object of the caller is
    not written. *)
Theorem renderString_compiles_and_runs source context w :
  exists w',
    renderString hb source context w =
      (w',
       match compile hb source with
       | Throw e => Throw (new CompileError (message e))
       | Normal t =>
           match t (context_on_entry context w) with
           | Normal out => Normal out
           | Throw e => Throw (new RenderError (message e))
           end
       end)
    /\ this w' = this w
    /\ calls w' =
       calls w ++ match compile hb source with
                  | Throw _ => []
                  | Normal _ => [CallTemplate (context_on_entry context w)]
                  end
    /\ invoked (calls w') = invoked (calls w)
    /\ heap w' = match context with
                 | Some _ => heap w
                 | None => <[context_object None w := ∅]> (heap w)
                 end.
Proof.
  unfold renderString, call_template, or_empty_object.
  destruct context as [l |]; unfold_M; simpl;
    destruct (compile hb source) as [t | e]; simpl;
    rewrite ?lookup_insert_eq; simpl;
    try destruct (t _); simpl;
    eexists; (split; [reflexivity |]); simpl;
    rewrite ?app_nil_r; split_and!; try done;
    unfold invoked; by rewrite omap_app, app_nil_r.
Qed.

End RenderString.

(** On the stand-in engine, with a translator and a decorator set: the
    template sees neither [template] nor [locale_name], and the decorator is
    not applied; a parse error is a CompileError, a missing helper a
    RenderError. *)
Example renderString_on_stub :
  let w := fst (addDecorator (Stub.append "A")
                  (fst (setTranslator (Some Stub.en_US) Stub.fresh_world))) in
  snd (renderString Stub.engine "Hi {{template}}{{locale_name}}!" None w)
    = Normal "Hi !"
  /\ snd (renderString Stub.engine "{{#if}}" None w)
     = Throw (new CompileError "Parse error")
  /\ snd (renderString Stub.engine "{{a b}}" None w)
     = Throw (new RenderError "Missing helper: a b").
Proof. vm_compute. repeat split; reflexivity. Qed.

(** ** Precompiled and raw registration *)
Section RoundTrip.

Context (hb : Engine).

(** A payload the regex rejects is stored as text, and [render] of its
    path throws a RenderError: the stored text is not callable. *)
Lemma render_after_raw_registration w p s context :
  partials (this w) !! p = None ->
  RegExp.test re s = false ->
  snd (render p context (fst (addTemplates hb [(p, s)] w))) =
  Throw (new RenderError "template is not a function").
Proof.
  intros Hp Hs.
  rewrite (addTemplates_register hb p s [] w (PSource s) Hp
             (tryRestoring_raw hb s w Hs)).
  rewrite addTemplates_nil. cbn [fst].
  by rewrite (render_source p context _ s) by apply lookup_insert_eq.
Qed.

(** [render] reads the template of a path through its results only. *)
Lemma render_template_ext path context w1 w2 (t1 t2 : Template) :
  partials (this w1) !! path = Some (PTemplate t1) ->
  partials (this w2) !! path = Some (PTemplate t2) ->
  (forall o, t1 o = t2 o) ->
  _translator (this w1) = _translator (this w2) ->
  _decorators (this w1) = _decorators (this w2) ->
  heap w1 = heap w2 -> calls w1 = calls w2 ->
  snd (render path context w1) = snd (render path context w2)
  /\ heap (fst (render path context w1)) = heap (fst (render path context w2))
  /\ calls (fst (render path context w1)) = calls (fst (render path context w2)).
Proof.
  intros H1 H2 Ht Htr Hd Hh Hc.
  rewrite (render_template _ _ _ _ H1), (render_template _ _ _ _ H2).
  unfold context_on_entry, context_object. rewrite Htr, Hd, Hh, Hc, Ht.
  destruct (t2 _) as [out |]; [| done].
  assert (Hloop : forall fns i s h c r1 r2,
    let a1 := apply_decorators i fns s (mkWorld r1 h c) in
    let a2 := apply_decorators i fns s (mkWorld r2 h c) in
    snd a1 = snd a2 /\ heap (fst a1) = heap (fst a2)
    /\ calls (fst a1) = calls (fst a2)).
  { induction fns as [| fn fns IH]; intros i s h c r1 r2; simpl; [done |].
    unfold_M. simpl. destruct (fn s) as [s' |]; [| done]. apply IH. }
  unfold try_catch.
  match goal with
  | |- context [apply_decorators 0 ?fns out (mkWorld ?r1 ?h ?c)] =>
      match goal with
      | |- context [apply_decorators 0 fns out (mkWorld ?r2 h c)] =>
          lazymatch r1 with
          | r2 => fail
          | _ => pose proof (Hloop fns 0 out h c r1 r2) as (Ha & Hb & Hcc)
          end
      end
  end.
  simpl in Ha, Hb, Hcc.
  repeat match goal with
         | |- context [apply_decorators ?i ?fns ?s ?w] =>
             destruct (apply_decorators i fns s w) as [? [?|?]]
         end; simpl in *; subst; try done; by simplify_eq.
Qed.

(** C7, as amended.  Let [s] be a source the detector takes for raw text,
    and let its precompiled form be accepted by the detector, read by
    [eval] and restored by [handlebars.template] to a template that agrees
    with [compile s] on every context (the round trip the engine owes).
    Then rendering [p] after registering the precompiled form under [p]
    gives the result, the context object and the calls of rendering [p]
    bound to [compile s]; and rendering [p] after registering the raw source
    [s] itself throws a RenderError, the stored text not being callable. *)
Theorem render_precompiled_as_compiled w p s artifact spec t t' context :
  partials (this w) !! p = None ->
  RegExp.test re s = false ->
  precompile hb s handlebarsOptions = Normal artifact ->
  RegExp.test re artifact = true ->
  eval hb ("template = " +:+ artifact) = Normal spec ->
  template hb spec = Normal t ->
  compile hb s = Normal t' ->
  (forall o, t o = t' o) ->
  let precompiled := fst (addTemplates hb [(p, artifact)] w) in
  let compiled := fst (registerPartial p (PTemplate t') w) in
  let raw := fst (addTemplates hb [(p, s)] w) in
  (snd (render p context precompiled) = snd (render p context compiled)
   /\ heap (fst (render p context precompiled)) =
      heap (fst (render p context compiled))
   /\ calls (fst (render p context precompiled)) =
      calls (fst (render p context compiled)))
  /\ snd (render p context raw) =
     Throw (new RenderError "template is not a function").
Proof.
  intros Hp Hs Hpre Hart Hev Htpl Hcomp Hext. simpl. split.
  - assert (Hr : _tryRestoringPrecompiled hb artifact w = (w, Normal (PTemplate t))).
    { rewrite tryRestoring_precompiled by done. by rewrite Hev, Htpl. }
    rewrite (addTemplates_register hb p artifact [] w (PTemplate t) Hp Hr).
    rewrite addTemplates_nil. cbn [fst].
    apply (render_template_ext p context _ _ t t'); try done;
      simpl; apply lookup_insert_eq.
  - by apply render_after_raw_registration.
Qed.

End RoundTrip.

Lemma render_precompiled_as_compiled_witness :
  let w := Stub.with_object 0 {[ "name" := VStr "World" ]} Stub.fresh_world in
  let precompiled :=
    fst (addTemplates Stub.engine
           [("p", Stub.head +:+ "Hello {{name}}" +:+ Stub.tail)] w) in
  let compiled :=
    fst (registerPartial "p" (PTemplate (Stub.template_of "Hello {{name}}")) w) in
  let raw := fst (addTemplates Stub.engine [("p", "Hello {{name}}")] w) in
  (snd (render "p" (Some 0) precompiled) = snd (render "p" (Some 0) compiled)
   /\ heap (fst (render "p" (Some 0) precompiled)) =
      heap (fst (render "p" (Some 0) compiled))
   /\ calls (fst (render "p" (Some 0) precompiled)) =
      calls (fst (render "p" (Some 0) compiled)))
  /\ snd (render "p" (Some 0) raw) =
     Throw (new RenderError "template is not a function").
Proof.
  apply (render_precompiled_as_compiled Stub.engine
           (Stub.with_object 0 {[ "name" := VStr "World" ]} Stub.fresh_world)
           "p" "Hello {{name}}" (Stub.head +:+ "Hello {{name}}" +:+ Stub.tail)
           "Hello {{name}}" (Stub.template_of "Hello {{name}}")
           (Stub.template_of "Hello {{name}}") (Some 0));
    vm_compute; reflexivity.
Defined.

(** C7 (counterexample).  On the stand-in engine, whose precompiled form
    restores to what [compile] gives: with [Hello {{name}}] registered raw
    under [p], [render] of [p] on the context [{name: "World"}] throws a
    RenderError (and does so on any engine); with its precompiled form
    registered, it returns [Hello World].  The two registrations do not
    produce the same string. *)
Lemma render_raw_differs_from_precompiled :
  (forall hb,
      snd (render "p" (Some 0)
             (fst (addTemplates hb [("p", "Hello {{name}}")]
                     (Stub.with_object 0 {[ "name" := VStr "World" ]}
                        Stub.fresh_world)))) =
      Throw (new RenderError "template is not a function"))
  /\ (exists artifact,
        precompile Stub.engine "Hello {{name}}" handlebarsOptions = Normal artifact
        /\ snd (render "p" (Some 0)
                  (fst (addTemplates Stub.engine [("p", artifact)]
                          (Stub.with_object 0 {[ "name" := VStr "World" ]}
                             Stub.fresh_world)))) =
           Normal "Hello World").
Proof.
  split.
  - intros hb. apply render_after_raw_registration; vm_compute; reflexivity.
  - exists (Stub.head +:+ "Hello {{name}}" +:+ Stub.tail).
    split; vm_compute; reflexivity.
Qed.

(** * Further properties *)

(** ** More about the detector *)
Section DetectorShape.
Import RegExp RegExpFacts.

Lemma list_ascii_of_string_app (a b : string) :
  list_ascii_of_string (a +:+ b) =
  list_ascii_of_string a ++ list_ascii_of_string b.
Proof. induction a as [| c a IH]; simpl; [done | by rewrite IH]. Qed.

Lemma word_is_not_line_terminator c :
  is_word c = true -> is_line_terminator c = false.
Proof.
  destruct c as [[] [] [] [] [] [] [] []]; vm_compute; congruence.
Qed.

Lemma forallb_word_no_terminator w :
  forallb is_word w = true ->
  forallb (fun c => negb (is_line_terminator c)) w = true.
Proof.
  induction w as [| c w IH]; simpl; [done |].
  intros [Hc Hw]%andb_true_iff.
  by rewrite (word_is_not_line_terminator c Hc), IH.
Qed.

(** The whole of a match: a run without line terminators, then the pieces
    of the signature. *)
Lemma matches_re_shape m :
  matches re m ->
  exists run w1 w2 mid w3 w4 : list ascii,
    m = run ++ list_ascii_of_string (quoted "compiler") ++ w1 ++ ":"%char ::
        w2 ++ "["%char :: mid ++ list_ascii_of_string (quoted "main") ++
        w3 ++ ":"%char :: w4 ++ list_ascii_of_string "function"
    /\ forallb (fun c => negb (is_line_terminator c)) run = true
    /\ forallb is_word w1 = true /\ forallb is_word w2 = true
    /\ forallb (fun c => negb (is_line_terminator c)) mid = true
    /\ forallb is_word w3 = true /\ forallb is_word w4 = true.
Proof.
  rewrite re_shape. intros H.
  apply matches_many_inv in H as (run & ? & -> & Hrun & H).
  apply matches_lit_inv in H as (? & -> & H).
  apply matches_many_inv in H as (w1 & ? & -> & Hw1 & H).
  apply matches_char_inv in H as (? & -> & H).
  apply matches_many_inv in H as (w2 & ? & -> & Hw2 & H).
  apply matches_char_inv in H as (? & -> & H).
  apply matches_many_inv in H as (mid & ? & -> & Hmid & H).
  apply matches_lit_inv in H as (? & -> & H).
  apply matches_many_inv in H as (w3 & ? & -> & Hw3 & H).
  apply matches_char_inv in H as (? & -> & H).
  apply matches_many_inv in H as (w4 & ? & -> & Hw4 & H).
  apply matches_lit_inv in H as (? & -> & ->%matches_nil_inv).
  exists run, w1, w2, mid, w3, w4. rewrite app_nil_r. done.
Qed.

(** No match of the regex spans a line terminator. *)
Lemma matches_re_one_line m :
  matches re m -> forallb (fun c => negb (is_line_terminator c)) m = true.
Proof.
  intros (run & w1 & w2 & mid & w3 & w4 & -> & Hrun & Hw1 & Hw2 & Hmid & Hw3 & Hw4)
    %matches_re_shape.
  apply forallb_word_no_terminator in Hw1, Hw2, Hw3, Hw4.
  repeat (rewrite ?forallb_app; simpl).
  by rewrite Hrun, Hw1, Hw2, Hmid, Hw3, Hw4.
Qed.

(** Every match of the regex holds a double quote. *)
Lemma matches_re_quote m : matches re m -> dquote ∈ m.
Proof.
  intros (run & w1 & w2 & mid & w3 & w4 & -> & _)%matches_re_shape.
  apply elem_of_app. right. apply elem_of_app. left. simpl. by left.
Qed.

(** A list that is split at [x] holds a segment free of [x] on one side. *)
Lemma segment_left (x : ascii) (m : list ascii) : forall a y b,
  m ++ y = a ++ x :: b -> x ∉ m -> exists y', a = m ++ y'.
Proof.
  induction m as [| d m IH]; intros a y b E Hx; [by exists a |].
  apply not_elem_of_cons in Hx as [Hne Hx].
  destruct a as [| c a]; simpl in E.
  - injection E as -> _. done.
  - injection E as -> E. destruct (IH _ _ _ E Hx) as [y' ->]. by exists y'.
Qed.

Lemma segment_split (x : ascii) (m : list ascii) : forall a p y b,
  p ++ m ++ y = a ++ x :: b -> x ∉ m ->
  (exists y', a = p ++ m ++ y') \/ (exists p', b = p' ++ m ++ y).
Proof.
  induction a as [| c a IH]; intros p y b E Hx.
  - destruct p as [| c p]; simpl in E.
    + destruct (segment_left x m [] y b E Hx) as [y' Hy].
      left. exists y'. by simpl.
    + injection E as -> E. right. by exists p.
  - destruct p as [| c' p]; simpl in E.
    + destruct (segment_left x m (c :: a) y b E Hx) as [y' Hy].
      left. by exists y'.
    + injection E as -> E.
      destruct (IH _ _ _ E Hx) as [[y' ->] | [p' ->]].
      * left. by exists y'.
      * right. by exists p'.
Qed.

Lemma search_line_split nl a b :
  is_line_terminator nl = true ->
  search re (a ++ nl :: b) = search re a || search re b.
Proof.
  intros Hnl. apply eq_true_iff_eq.
  rewrite orb_true_iff, !search_spec. split.
  - intros (p & m & y & E & Hm).
    assert (Hx : nl ∉ m).
    { intros Hin. pose proof (matches_re_one_line m Hm) as Hall.
      rewrite forallb_forall in Hall.
      apply list_elem_of_In, Hall in Hin. by rewrite Hnl in Hin. }
    symmetry in E.
    destruct (segment_split nl m a p y b E Hx) as [[y' ->] | [p' ->]].
    + left. by exists p, m, y'.
    + right. by exists p', m, y.
  - intros [(p & m & y & -> & Hm) | (p & m & y & -> & Hm)].
    + exists p, m, (y ++ nl :: b). by simplify_list_eq.
    + exists (a ++ nl :: p), m, y. by simplify_list_eq.
Qed.

Lemma search_surrounded pre s post :
  search re s = true -> search re (pre ++ s ++ post) = true.
Proof.
  rewrite !search_spec. intros (p & m & y & -> & Hm).
  exists (pre ++ p), m, (y ++ post). by simplify_list_eq.
Qed.

Lemma search_needs_quote s : search re s = true -> dquote ∈ s.
Proof.
  rewrite search_spec. intros (p & m & y & -> & Hm%matches_re_quote).
  apply elem_of_app. right. apply elem_of_app. by left.
Qed.

End DetectorShape.

Section DetectorUse.

Context (hb : Engine).

(** X2.  The regex is not anchored: text that holds an accepted payload
    anywhere inside it is accepted too, and the restorer passes the whole of
    it to [eval] and [handlebars.template]. *)
Theorem restorer_evals_text_around_signature s pre post w :
  RegExp.test re s = true ->
  RegExp.test re (pre +:+ s +:+ post) = true
  /\ _tryRestoringPrecompiled hb (pre +:+ s +:+ post) w =
     (w, match eval hb ("template = " +:+ pre +:+ s +:+ post) with
         | Normal spec =>
             match template hb spec with
             | Normal t => Normal (PTemplate t)
             | Throw e => Throw e
             end
         | Throw e => Throw e
         end).
Proof.
  intros H.
  assert (Hall : RegExp.test re (pre +:+ s +:+ post) = true).
  { unfold RegExp.test in *. rewrite !list_ascii_of_string_app.
    by apply search_surrounded. }
  split; [done |]. by apply tryRestoring_precompiled.
Qed.

(** X3.  Detection is line by line: text with a line feed or a carriage
    return in it is accepted exactly when the part before it or the part
    after it is.  A signature with its [compiler] array on one line and its
    [main] function on the next is not found. *)
Theorem detector_linewise (a b : string) :
  RegExp.test re (a +:+ String "010"%char b) = RegExp.test re a || RegExp.test re b
  /\ RegExp.test re (a +:+ String "013"%char b) = RegExp.test re a || RegExp.test re b.
Proof.
  unfold RegExp.test. rewrite !list_ascii_of_string_app. simpl.
  split; by apply search_line_split.
Qed.

(** X4.  Text without a double quote is never taken for an artifact: the
    restorer returns it unchanged, and registering it under a free path
    stores the text and cannot throw, whatever the engine. *)
Theorem text_without_quote_is_raw payload path w :
  existsb (Ascii.eqb dquote) (list_ascii_of_string payload) = false ->
  partials (this w) !! path = None ->
  RegExp.test re payload = false
  /\ _tryRestoringPrecompiled hb payload w = (w, Normal (PSource payload))
  /\ addTemplates hb [(path, payload)] w =
     (registered path (PSource payload) w, Normal tt).
Proof.
  intros Hq Hp.
  assert (Hraw : RegExp.test re payload = false).
  { unfold RegExp.test. destruct (RegExp.search re _) eqn:Hs; [| done].
    apply search_needs_quote, list_elem_of_In in Hs.
    assert (existsb (Ascii.eqb dquote) (list_ascii_of_string payload) = true)
      as Hex; [| congruence].
    apply existsb_exists. exists dquote. split; [done | apply Ascii.eqb_refl]. }
  split_and!; [done | by apply tryRestoring_raw |].
  rewrite (addTemplates_register hb path payload [] w (PSource payload) Hp
             (tryRestoring_raw hb payload w Hraw)).
  apply addTemplates_nil.
Qed.

End DetectorUse.

Lemma restorer_evals_text_around_signature_witness :
  RegExp.test re ("Hello {{name}} " +:+ compact_artifact +:+ "!") = true
  /\ _tryRestoringPrecompiled Stub.engine
       ("Hello {{name}} " +:+ compact_artifact +:+ "!") Stub.fresh_world =
     (Stub.fresh_world,
      match eval Stub.engine
              ("template = " +:+ "Hello {{name}} " +:+ compact_artifact +:+ "!")
      with
      | Normal spec =>
          match template Stub.engine spec with
          | Normal t => Normal (PTemplate t)
          | Throw e => Throw e
          end
      | Throw e => Throw e
      end).
Proof.
  apply (restorer_evals_text_around_signature Stub.engine compact_artifact
           "Hello {{name}} " "!" Stub.fresh_world).
  vm_compute. reflexivity.
Defined.

Lemma text_without_quote_is_raw_witness :
  RegExp.test re "Hello {{name}}" = false
  /\ _tryRestoringPrecompiled Stub.engine "Hello {{name}}" Stub.fresh_world =
     (Stub.fresh_world, Normal (PSource "Hello {{name}}"))
  /\ addTemplates Stub.engine [("p", "Hello {{name}}")] Stub.fresh_world =
     (registered "p" (PSource "Hello {{name}}") Stub.fresh_world, Normal tt).
Proof.
  apply (text_without_quote_is_raw Stub.engine "Hello {{name}}" "p"
           Stub.fresh_world); vm_compute; reflexivity.
Defined.

(** ** More about the template store *)
Section StoreBatches.

Context (hb : Engine).

Lemma each_app {A} (f : A -> M unit) (a b : list A) w :
  each (a ++ b) f w = (each a f;; each b f) w.
Proof.
  revert w. induction a as [| x a IH]; intros w; simpl.
  - reflexivity.
  - unfold_M. destruct (f x w) as [w1 [[] | e]]; [apply IH | done].
Qed.

(** A batch whose paths are all bound does nothing. *)
Lemma addTemplates_all_bound ts : forall w,
  (forall q, q ∈ ts.*1 -> is_Some (partials (this w) !! q)) ->
  addTemplates hb ts w = (w, Normal tt).
Proof.
  induction ts as [| [path payload] ts IH]; intros w Hall; [done |].
  rewrite addTemplates_skip by (apply Hall; simpl; by left).
  apply IH. intros q Hq. apply Hall. simpl. by right.
Qed.

(** In a batch without repeated paths that returned, a path that was free
    is bound to what the restorer made of its own payload. *)
Lemma addTemplates_binds_own ts : forall w w' path payload,
  NoDup ts.*1 ->
  addTemplates hb ts w = (w', Normal tt) ->
  (path, payload) ∈ ts ->
  partials (this w) !! path = None ->
  exists p,
    snd (_tryRestoringPrecompiled hb payload w) = Normal p
    /\ partials (this w') !! path = Some p.
Proof.
  induction ts as [| [path0 payload0] ts IH]; intros w w' path payload Hnd Hrun Hin Hfree.
  { by apply elem_of_nil in Hin. }
  rewrite fmap_cons in Hnd. apply NoDup_cons in Hnd as [Hnew Hnd]. simpl in Hnew.
  apply elem_of_cons in Hin as [[= -> ->] | Hin].
  - destruct (addTemplates_cons hb path0 payload0 ts w)
      as [[[x Hx] _] | [(p & _ & Hp & E) | (e & _ & _ & E)]].
    + congruence.
    + rewrite E in Hrun. exists p. rewrite Hp. split; [done |].
      pose proof (addTemplates_keeps hb ts (registered path0 p w) path0 p) as Hk.
      rewrite Hrun in Hk. apply Hk.
      by rewrite registered_lookup, decide_True.
    + rewrite E in Hrun. done.
  - assert (Hne : path0 <> path).
    { intros ->. apply Hnew. apply list_elem_of_fmap. by exists (path, payload). }
    destruct (addTemplates_cons hb path0 payload0 ts w)
      as [[_ E] | [(p & _ & _ & E) | (e & _ & _ & E)]]; rewrite E in Hrun.
    + by apply (IH w).
    + destruct (IH _ _ path payload Hnd Hrun Hin) as (r & Hr & Hb).
      { by rewrite registered_lookup, decide_False. }
      exists r. split; [| done].
      by rewrite (tryRestoring_pure hb payload w (registered path0 p w)).
    + done.
Qed.

(** A batch returns when the restorer returns on each of its payloads. *)
Lemma addTemplates_returns ts : forall w,
  (forall path payload, (path, payload) ∈ ts ->
     exists p, snd (_tryRestoringPrecompiled hb payload w) = Normal p) ->
  exists w', addTemplates hb ts w = (w', Normal tt).
Proof.
  induction ts as [| [path payload] ts IH]; intros w Hall; [by exists w |].
  assert (Hrest : forall w2 path' payload', (path', payload') ∈ ts ->
            exists p, snd (_tryRestoringPrecompiled hb payload' w2) = Normal p).
  { intros w2 path' payload' Hin.
    destruct (Hall path' payload') as [p Hp]; [by right |].
    exists p. by rewrite (tryRestoring_pure hb payload' w2 w). }
  destruct (addTemplates_cons hb path payload ts w)
    as [[_ ->] | [(p & _ & _ & ->) | (e & _ & He & _)]].
  - apply IH, Hrest.
  - apply IH, Hrest.
  - destruct (Hall path payload) as [p Hp]; [by left |].
    rewrite He in Hp. done.
Qed.

(** X5.  One call with the entries [a] followed by the entries [b] is a
    call with [a] followed by a call with [b]: the second runs only when
    the first returned, and in the state the first left. *)
Theorem addTemplates_app a b w :
  addTemplates hb (a ++ b) w = (addTemplates hb a;; addTemplates hb b) w.
Proof. apply each_app. Qed.

(** X6.  A batch is not atomic.  When the entries before [path] register
    and the restorer throws on the payload of [path], the call throws the
    FormatError in the state those entries left: they stay registered, and
    neither [path] nor any path named only later is. *)
Theorem addTemplates_stops_at_failure pre path payload post w w1 e :
  addTemplates hb pre w = (w1, Normal tt) ->
  partials (this w1) !! path = None ->
  _tryRestoringPrecompiled hb payload w1 = (w1, Throw e) ->
  addTemplates hb (pre ++ (path, payload) :: post) w =
    (w1, Throw (new FormatError (message e)))
  /\ (forall q, q ∈ pre.*1 -> is_Some (partials (this w1) !! q))
  /\ (forall q, q ∉ pre.*1 -> partials (this w1) !! q = partials (this w) !! q).
Proof.
  intros Hpre Hfree He. split_and!.
  - unfold addTemplates at 1. rewrite each_app.
    fold (addTemplates hb pre) (addTemplates hb ((path, payload) :: post)).
    unfold_M. rewrite Hpre. by apply addTemplates_fail.
  - intros q Hq. by apply (addTemplates_loads hb pre w).
  - intros q Hq. pose proof (addTemplates_other hb pre w q Hq) as H.
    by rewrite Hpre in H.
Qed.

(** X7.  Registration is idempotent: after a call that returned, the same
    call again returns and changes nothing. *)
Theorem addTemplates_idempotent ts w w1 :
  addTemplates hb ts w = (w1, Normal tt) ->
  addTemplates hb ts w1 = (w1, Normal tt).
Proof.
  intros H. apply addTemplates_all_bound.
  intros q Hq. by apply (addTemplates_loads hb ts w).
Qed.

(** X8.  In a batch without repeated paths that returned, every path that
    was free before the call is bound to what the restorer made of its own
    payload: raw text as it is, an accepted artifact as the template the
    engine restored. *)
Theorem addTemplates_binds_each_payload ts w w' path payload :
  NoDup ts.*1 ->
  addTemplates hb ts w = (w', Normal tt) ->
  (path, payload) ∈ ts ->
  partials (this w) !! path = None ->
  exists p,
    _tryRestoringPrecompiled hb payload w = (w, Normal p)
    /\ partials (this w') !! path = Some p
    /\ (RegExp.test re payload = false -> p = PSource payload).
Proof.
  intros Hnd Hrun Hin Hfree.
  destruct (addTemplates_binds_own ts w w' path payload Hnd Hrun Hin Hfree)
    as (p & Hp & Hb).
  exists p. split_and!; [| done |].
  - pose proof (tryRestoring_world hb payload w) as Hw.
    destruct (_tryRestoringPrecompiled hb payload w) as [w0 c].
    simpl in *. by subst.
  - intros Hraw. rewrite tryRestoring_raw in Hp by done. by injection Hp.
Qed.

(** X10.  The only exception [addTemplates] throws is a FormatError
    without details, and it comes from an entry whose payload the regex
    accepted: its message is that of the throw of [eval] or of
    [handlebars.template] on that payload.  Raw text never makes
    registration fail. *)
Theorem addTemplates_throws_format_error ts w w' e :
  addTemplates hb ts w = (w', Throw e) ->
  exists path payload e',
    (path, payload) ∈ ts
    /\ RegExp.test re payload = true
    /\ (eval hb ("template = " +:+ payload) = Throw e'
        \/ exists spec, eval hb ("template = " +:+ payload) = Normal spec
                        /\ template hb spec = Throw e')
    /\ e = mkExn FormatError (message e') None.
Proof.
  revert w. induction ts as [| [path payload] ts IH]; intros w Hrun; [done |].
  destruct (addTemplates_cons hb path payload ts w)
    as [[_ E] | [(p & _ & _ & E) | (e' & _ & He & E)]]; rewrite E in Hrun.
  - destruct (IH _ Hrun) as (q & pl & e' & Hin & H).
    exists q, pl, e'. split; [by right | done].
  - destruct (IH _ Hrun) as (q & pl & e' & Hin & H).
    exists q, pl, e'. split; [by right | done].
  - injection Hrun as <- <-. exists path, payload, e'.
    split; [by left |].
    destruct (RegExp.test re payload) eqn:Ht.
    + rewrite tryRestoring_precompiled in He by done.
      split_and!; [done | | done].
      destruct (eval hb _) as [spec | e0]; [right | left; congruence].
      exists spec. split; [done |].
      destruct (template hb spec); congruence.
    + rewrite tryRestoring_raw in He by done. done.
Qed.

End StoreBatches.

(** ** More about the render pipeline *)
Section RenderMore.

Lemma pipeline_app (a b : list Decorator) s :
  pipeline (a ++ b) s =
  match pipeline a s with
  | Normal s' => pipeline b s'
  | Throw e => Throw e
  end.
Proof.
  revert s. induction a as [| fn a IH]; intros s; simpl; [done |].
  destruct (fn s); [apply IH | done].
Qed.

(** The world after [addDecorator] of each of [ds] in turn. *)
Lemma add_decorators_world (ds : list Decorator) : forall w,
  foldl (fun w d => fst (addDecorator d w)) w ds =
  mkWorld (mkRenderer (partials (this w)) (_translator (this w))
                      (_decorators (this w) ++ ds) (_contentRegions (this w)))
          (heap w) (calls w).
Proof.
  induction ds as [| d ds IH]; intros w; simpl.
  - rewrite app_nil_r. by destruct w as [[] ? ?].
  - rewrite IH. simpl. by rewrite <- app_assoc.
Qed.

Lemma try_catch_throw_eq {A} (m : M A) (f : Exn -> Exn) w :
  try_catch m (fun e => throw (f e)) w =
  (fst (m w), match snd (m w) with
              | Normal a => Normal a
              | Throw e => Throw (f e)
              end).
Proof. unfold try_catch, throw. by destruct (m w) as [w1 [a | e]]. Qed.

(** A call of a partial writes nothing but the list of calls. *)
Lemma call_partial_frame p l w :
  this (fst (call_partial p l w)) = this w
  /\ heap (fst (call_partial p l w)) = heap w
  /\ exists cs, calls (fst (call_partial p l w)) = calls w ++ cs.
Proof.
  destruct p as [source | t | member]; simpl.
  - split_and!; [done | done |]. exists []. by rewrite app_nil_r.
  - unfold_M. simpl. destruct (t (default ∅ (heap w !! l))); simpl;
      split_and!; try done; by eexists.
  - unfold call_inherited. destruct (String.eqb member "__proto__").
    + split_and!; [done | done |]. exists []. by rewrite app_nil_r.
    + unfold_M. simpl.
      destruct (String.eqb member "toString"); [| destruct (String.eqb member "constructor")];
        simpl; split_and!; try done; by eexists.
Qed.

(** The state [render] leaves: the renderer as it was, the context object
    written, calls added. *)
Lemma render_world path context w :
  this (fst (render path context w)) = this w
  /\ heap (fst (render path context w)) =
     <[context_object context w :=
         augmented path (_translator (this w)) (context_on_entry context w)]>
       (heap w)
  /\ exists cs, calls (fst (render path context w)) = calls w ++ cs.
Proof.
  rewrite render_lookup.
  destruct (partials (this w) !! path) as [p |] eqn:H.
  - destruct (call_partial_frame p (context_object context w)
                (at_lookup path context w)) as (H1 & H2 & cs1 & H3).
    unfold mbind, M_bind, bind, gets. rewrite try_catch_throw_eq.
    destruct (call_partial p (context_object context w)
                (at_lookup path context w)) as [w1 [out | e]]; simpl in *.
    + rewrite try_catch_decorators_world.
      destruct (apply_decorators_frame (_decorators (this w1)) 0 out w1)
        as (H4 & H5 & cs2 & H6 & _).
      rewrite H4, H5, H6, H1, H2, H3. split_and!; [done | done |].
      exists (cs1 ++ cs2). by rewrite app_assoc.
    + rewrite H1, H2, H3. split_and!; [done | done |]. by eexists.
  - simpl. split_and!; [done | done |]. exists []. by rewrite app_nil_r.
Qed.

(** X13.  When the template of the path throws, [render] throws a
    RenderError with the message of that throw; the template was run once
    and no decorator was called, whatever decorators are registered. *)
Theorem render_template_throw_skips_decorators path context w t e :
  partials (this w) !! path = Some (PTemplate t) ->
  t (augmented path (_translator (this w)) (context_on_entry context w))
    = Throw e ->
  exists w',
    render path context w = (w', Throw (new RenderError (message e)))
    /\ calls w' =
       calls w ++ [CallTemplate (augmented path (_translator (this w))
                                           (context_on_entry context w))]
    /\ this w' = this w.
Proof.
  intros H Ht. rewrite (render_template _ _ _ _ H). simpl. rewrite Ht.
  by eexists.
Qed.

(** X15.  Decorators added one by one are appended in that order, and
    [render] runs the decorators that were there first, then the added
    ones on their result; a throw of either part is a DecoratorError. *)
Theorem render_after_adding_decorators (ds : list Decorator) path context w t :
  partials (this w) !! path = Some (PTemplate t) ->
  let w' := foldl (fun w d => fst (addDecorator d w)) w ds in
  _decorators (this w') = _decorators (this w) ++ ds
  /\ snd (render path context w') =
     match t (augmented path (_translator (this w))
                        (context_on_entry context w)) with
     | Throw e => Throw (new RenderError (message e))
     | Normal out =>
         match pipeline (_decorators (this w)) out with
         | Throw e => Throw (new DecoratorError (message e))
         | Normal mid =>
             match pipeline ds mid with
             | Normal final => Normal final
             | Throw e => Throw (new DecoratorError (message e))
             end
         end
     end.
Proof.
  intros H. simpl. rewrite add_decorators_world. split; [done |].
  rewrite (render_completion_template path context _ t) by done.
  unfold context_on_entry. simpl.
  destruct (t _) as [out |]; [| done].
  rewrite pipeline_app. by destruct (pipeline (_decorators (this w)) out).
Qed.

(** X19.  A context object used for two renders carries what the first
    wrote into the second: after a render with a translator set, and the
    translator then removed, the template of a later render on the same
    object is run on a context that still has the [locale_name] of the
    removed translator, beside the [template] of its own path, and the
    render completes with what the template returns on that context. *)
Theorem render_reuses_context_object path1 path2 l o tr t2 w :
  heap w !! l = Some o ->
  _translator (this w) = Some tr ->
  partials (this w) !! path2 = Some (PTemplate t2) ->
  let w1 := fst (setTranslator None (fst (render path1 (Some l) w))) in
  exists w2 seen rest,
    render path2 (Some l) w1 =
      (w2, match t2 seen with
           | Throw e => Throw (new RenderError (message e))
           | Normal out =>
               match pipeline (_decorators (this w)) out with
               | Normal final => Normal final
               | Throw e => Throw (new DecoratorError (message e))
               end
           end)
    /\ calls w2 = calls w1 ++ CallTemplate seen :: rest
    /\ executed rest = []
    /\ seen !! "template" = Some (VStr path2)
    /\ seen !! "locale_name" = Some (VStr (getLocale tr)).
Proof.
  intros Hl Htr Hp. simpl.
  destruct (render_world path1 (Some l) w) as (Hthis & Hheap & _).
  set (w1 := fst (setTranslator None (fst (render path1 (Some l) w)))).
  assert (Hp1 : partials (this w1) !! path2 = Some (PTemplate t2)).
  { subst w1. simpl. by rewrite Hthis. }
  destruct (render_template_call path2 (Some l) t2 w1 Hp1)
    as (w2 & c & rest & E & Hcalls & Hex).
  pose proof (render_completion_template path2 (Some l) w1 t2 Hp1) as Hc.
  assert (Hd : _decorators (this w1) = _decorators (this w)).
  { subst w1. simpl. by rewrite Hthis. }
  rewrite E, Hd in Hc. cbn [snd] in Hc. subst c.
  eexists w2, _, rest. split_and!; [exact E | done | done | |].
  - subst w1. simpl. by rewrite lookup_insert_eq.
  - subst w1. simpl. rewrite lookup_insert_ne by done.
    rewrite Hheap. simpl. rewrite lookup_insert_eq. simpl.
    rewrite Htr. simpl. by rewrite lookup_insert_eq.
Qed.

End RenderMore.

(** ** Preprocessing, then registration *)
Section PreprocessThenRegister.

Context (hb : Engine).

(** The preprocessor returns only when every template precompiles. *)
Lemma preprocess_each_returned ts : forall processed w w' m,
  preprocess_each hb ts processed w = (w', Normal m) -> precompiles hb ts.
Proof.
  induction ts as [| [path source] ts IH]; intros processed w w' m H.
  { constructor. }
  destruct (precompile hb source handlebarsOptions) as [s | e] eqn:Hs.
  - rewrite (preprocess_each_cons_ok hb _ _ s) in H by done.
    constructor; [by exists s | by eapply IH].
  - by rewrite (preprocess_each_cons_throw hb _ _ e) in H.
Qed.

(** X16.  The output of the preprocessor registers.  Let the templates
    have distinct, free paths, let the function of [getPreProcessor] return
    [m] on them, and let every serialization it made be accepted by the
    detector, read by [eval] and restored by [handlebars.template].  Then
    [addTemplates] on the entries of [m], in any order, returns, and binds
    the path of every template to the template restored from its own
    serialization. *)
Theorem preprocessed_templates_register ts w m entries :
  NoDup ts.*1 ->
  getPreProcessor hb ts w = (w, Normal m) ->
  entries ≡ₚ map_to_list m ->
  (forall q, q ∈ ts.*1 -> partials (this w) !! q = None) ->
  (forall path source artifact,
      (path, source) ∈ ts ->
      precompile hb source handlebarsOptions = Normal artifact ->
      RegExp.test re artifact = true
      /\ exists spec t,
           eval hb ("template = " +:+ artifact) = Normal spec
           /\ template hb spec = Normal t) ->
  exists w',
    addTemplates hb entries w = (w', Normal tt)
    /\ forall path source,
         (path, source) ∈ ts ->
         exists artifact spec t,
           precompile hb source handlebarsOptions = Normal artifact
           /\ eval hb ("template = " +:+ artifact) = Normal spec
           /\ template hb spec = Normal t
           /\ partials (this w') !! path = Some (PTemplate t).
Proof.
  intros Hnd Hrun Hperm Hfree Hgood.
  pose proof (preprocess_each_returned ts ∅ w w m Hrun) as Hok.
  destruct (preprocess_each_returns hb ts ∅ w Hok Hnd) as (m' & E & Hm).
  unfold getPreProcessor in Hrun. rewrite E in Hrun. injection Hrun as ->.
  assert (Hentry : forall q s,
            (q, s) ∈ entries <->
            exists source, (q, source) ∈ ts
                           /\ precompile hb source handlebarsOptions = Normal s).
  { intros q s. rewrite Hperm, elem_of_map_to_list, Hm. split.
    - intros [H | [_ H]]; [done | by rewrite lookup_empty in H].
    - by left. }
  assert (Hrestore : forall q s,
            (q, s) ∈ entries ->
            exists t, forall w0,
              _tryRestoringPrecompiled hb s w0 = (w0, Normal (PTemplate t))).
  { intros q s (source & Hin & Hs)%Hentry.
    destruct (Hgood q source s Hin Hs) as (Hre & spec & t & Hev & Htpl).
    exists t. intros w0. rewrite tryRestoring_precompiled by done.
    by rewrite Hev, Htpl. }
  destruct (addTemplates_returns hb entries w) as [w' Hw'].
  { intros q s Hin. destruct (Hrestore q s Hin) as [t Ht].
    exists (PTemplate t). by rewrite Ht. }
  exists w'. split; [done |].
  intros path source Hin.
  assert (Hs : exists s, precompile hb source handlebarsOptions = Normal s).
  { unfold precompiles in Hok. rewrite Forall_forall in Hok.
    by apply (Hok (path, source)). }
  destruct Hs as [s Hs].
  assert (Hin' : (path, s) ∈ entries) by (apply Hentry; eauto).
  destruct (Hgood path source s Hin Hs) as (Hre & spec & t & Hev & Htpl).
  exists s, spec, t. split_and!; [done | done | done |].
  assert (Hnd' : NoDup entries.*1).
  { rewrite Hperm. apply NoDup_fst_map_to_list. }
  destruct (addTemplates_binds_own hb entries w w' path s Hnd' Hw' Hin')
    as (p & Hp & Hb).
  { apply Hfree. apply list_elem_of_fmap. by exists (path, source). }
  rewrite tryRestoring_precompiled in Hp by done.
  rewrite Hev, Htpl in Hp. simpl in Hp. by injection Hp as <-.
Qed.

End PreprocessThenRegister.

(** ** Helper registration *)
Section HelperRegistration.

Context {H : Type}.

Lemma register_snoc (helpers : list (Helpers.Spec H)) spec ctx env :
  Helpers.register (helpers ++ [spec]) ctx env =
  <[Helpers.name spec := Helpers.factory spec ctx]> (Helpers.register helpers ctx env).
Proof. unfold Helpers.register. by rewrite foldl_snoc. Qed.

(** A name no descriptor bears keeps the helper of the environment. *)
Lemma register_other (helpers : list (Helpers.Spec H)) ctx env n :
  n ∉ Helpers.name <$> helpers ->
  Helpers.register helpers ctx env !! n = env !! n.
Proof.
  induction helpers as [| spec helpers IH] using rev_ind; intros Hn; [done |].
  rewrite fmap_app, not_elem_of_app in Hn. destruct Hn as [Hn Hs].
  rewrite register_snoc, lookup_insert_ne; [by apply IH |].
  intros E. apply Hs. simpl. rewrite E. by left.
Qed.

(** X18.  The constructor registers the helpers in the order of the list,
    each built by its factory from the one shared context: a name borne by
    several descriptors gets the helper of the last of them, a helper of the
    fresh environment with such a name is replaced, and every other helper
    of the environment is kept.  The accessors of the context read the
    renderer when they are called: they return a translator or regions set
    after the construction. *)
Theorem constructor_registers_helpers hb site theme
    (pre post : list (Helpers.Spec H)) spec env :
  Helpers.name spec ∉ Helpers.name <$> post ->
  let ctx := Helpers.helperContext hb site theme in
  Helpers.register (pre ++ spec :: post) ctx env !! Helpers.name spec =
    Some (Helpers.factory spec ctx)
  /\ (forall n, n ∉ Helpers.name <$> (pre ++ spec :: post) ->
        Helpers.register (pre ++ spec :: post) ctx env !! n = env !! n)
  /\ (forall t regions w,
        snd (Helpers.getTranslator ctx (fst (setTranslator t w))) = Normal t
        /\ snd (Helpers.getContent ctx (fst (addContent regions w)))
           = Normal regions).
Proof.
  intros Hlast. simpl. split_and!; [| | done].
  - unfold Helpers.register. rewrite foldl_app. simpl.
    fold (Helpers.register post (Helpers.helperContext hb site theme)
            (<[Helpers.name spec :=
                 Helpers.factory spec (Helpers.helperContext hb site theme)]>
               (foldl (fun env0 spec0 =>
                         <[Helpers.name spec0 :=
                             Helpers.factory spec0
                               (Helpers.helperContext hb site theme)]> env0)
                      env pre))).
    rewrite register_other by done. apply lookup_insert_eq.
  - intros n Hn. by apply register_other.
Qed.

End HelperRegistration.

(** *** Closed instances on the stand-in engine *)

Lemma addTemplates_stops_at_failure_witness :
  let w1 := registered "a" (PSource "{{x}}") Stub.fresh_world in
  addTemplates Stub.engine
    ([("a", "{{x}}")] ++ ("b", truncated_artifact) :: [("c", "{{y}}")])
    Stub.fresh_world =
    (w1, Throw (new FormatError (message Stub.syntax_error)))
  /\ (forall q, q ∈ [("a", "{{x}}")].*1 -> is_Some (partials (this w1) !! q))
  /\ (forall q, q ∉ [("a", "{{x}}")].*1 ->
        partials (this w1) !! q = partials (this Stub.fresh_world) !! q).
Proof.
  apply (addTemplates_stops_at_failure Stub.engine [("a", "{{x}}")] "b"
           truncated_artifact [("c", "{{y}}")] Stub.fresh_world
           (registered "a" (PSource "{{x}}") Stub.fresh_world)
           Stub.syntax_error); vm_compute; reflexivity.
Defined.

Lemma addTemplates_idempotent_witness :
  addTemplates Stub.engine [("a", "{{x}}"); ("b", "{{y}}")]
    (fst (addTemplates Stub.engine [("a", "{{x}}"); ("b", "{{y}}")]
            Stub.fresh_world)) =
  (fst (addTemplates Stub.engine [("a", "{{x}}"); ("b", "{{y}}")]
          Stub.fresh_world), Normal tt).
Proof.
  apply (addTemplates_idempotent Stub.engine [("a", "{{x}}"); ("b", "{{y}}")]
           Stub.fresh_world).
  vm_compute. reflexivity.
Defined.

Lemma addTemplates_binds_each_payload_witness :
  exists p,
    _tryRestoringPrecompiled Stub.engine "{{y}}" Stub.fresh_world =
      (Stub.fresh_world, Normal p)
    /\ partials (this (fst (addTemplates Stub.engine
                              [("a", "{{x}}"); ("b", "{{y}}")]
                              Stub.fresh_world))) !! "b" = Some p
    /\ (RegExp.test re "{{y}}" = false -> p = PSource "{{y}}").
Proof.
  apply (addTemplates_binds_each_payload Stub.engine
           [("a", "{{x}}"); ("b", "{{y}}")] Stub.fresh_world).
  - apply (bool_decide_unpack _). vm_compute. exact I.
  - vm_compute. reflexivity.
  - apply (bool_decide_unpack _). vm_compute. exact I.
  - reflexivity.
Defined.

Lemma addTemplates_throws_format_error_witness :
  exists path payload e',
    (path, payload) ∈ [("a", "{{x}}"); ("b", truncated_artifact)]
    /\ RegExp.test re payload = true
    /\ (eval Stub.engine ("template = " +:+ payload) = Throw e'
        \/ exists spec,
             eval Stub.engine ("template = " +:+ payload) = Normal spec
             /\ template Stub.engine spec = Throw e')
    /\ new FormatError (message Stub.syntax_error) =
       mkExn FormatError (message e') None.
Proof.
  apply (addTemplates_throws_format_error Stub.engine
           [("a", "{{x}}"); ("b", truncated_artifact)] Stub.fresh_world
           (registered "a" (PSource "{{x}}") Stub.fresh_world)).
  vm_compute. reflexivity.
Defined.

Lemma render_template_throw_skips_decorators_witness :
  let w := fst (addDecorator (Stub.append "A") (Stub.world_with "p" "{{a b}}")) in
  exists w',
    render "p" None w =
      (w', Throw (new RenderError (message (new HostError "Missing helper: a b"))))
    /\ calls w' =
       calls w ++ [CallTemplate (augmented "p" (_translator (this w))
                                           (context_on_entry None w))]
    /\ this w' = this w.
Proof.
  apply (render_template_throw_skips_decorators "p" None
           (fst (addDecorator (Stub.append "A") (Stub.world_with "p" "{{a b}}")))
           (Stub.template_of "{{a b}}") (new HostError "Missing helper: a b"));
    vm_compute; reflexivity.
Defined.

Lemma render_after_adding_decorators_witness :
  let w := Stub.world_with "p" "X" in
  let w' := foldl (fun w d => fst (addDecorator d w)) w
                  [Stub.append "A"; Stub.append "B"] in
  _decorators (this w') = _decorators (this w) ++ [Stub.append "A"; Stub.append "B"]
  /\ snd (render "p" None w') =
     match Stub.template_of "X"
             (augmented "p" (_translator (this w)) (context_on_entry None w)) with
     | Throw e => Throw (new RenderError (message e))
     | Normal out =>
         match pipeline (_decorators (this w)) out with
         | Throw e => Throw (new DecoratorError (message e))
         | Normal mid =>
             match pipeline [Stub.append "A"; Stub.append "B"] mid with
             | Normal final => Normal final
             | Throw e => Throw (new DecoratorError (message e))
             end
         end
     end.
Proof.
  apply (render_after_adding_decorators [Stub.append "A"; Stub.append "B"]
           "p" None (Stub.world_with "p" "X") (Stub.template_of "X")).
  vm_compute. reflexivity.
Defined.

Lemma preprocessed_templates_register_witness :
  exists w',
    addTemplates Stub.engine
      [("a", Stub.head +:+ "Hello {{name}}" +:+ Stub.tail)] Stub.fresh_world
    = (w', Normal tt)
    /\ forall path source,
         (path, source) ∈ [("a", "Hello {{name}}")] ->
         exists artifact spec t,
           precompile Stub.engine source handlebarsOptions = Normal artifact
           /\ eval Stub.engine ("template = " +:+ artifact) = Normal spec
           /\ template Stub.engine spec = Normal t
           /\ partials (this w') !! path = Some (PTemplate t).
Proof.
  apply (preprocessed_templates_register Stub.engine [("a", "Hello {{name}}")]
           Stub.fresh_world
           {[ "a" := Stub.head +:+ "Hello {{name}}" +:+ Stub.tail ]}).
  - apply (bool_decide_unpack _). vm_compute. exact I.
  - vm_compute. reflexivity.
  - by rewrite map_to_list_singleton.
  - intros q Hq. simpl in Hq. apply list_elem_of_singleton in Hq as ->.
    vm_compute. reflexivity.
  - intros path source artifact [= -> ->]%list_elem_of_singleton Hpre.
    vm_compute in Hpre. injection Hpre as <-.
    split; [vm_compute; reflexivity |].
    eexists _, _. split; vm_compute; reflexivity.
Defined.

Lemma constructor_registers_helpers_witness :
  let ctx := Helpers.helperContext Stub.engine None None in
  let helpers :=
    [Helpers.mkSpec "if" (fun _ => "first")]
    ++ Helpers.mkSpec "if" (fun _ => "second")
    :: [Helpers.mkSpec "json" (fun _ => "third")] in
  let env : gmap string string := {[ "if" := "builtin"; "each" := "builtin" ]} in
  Helpers.register helpers ctx env !! "if" = Some "second"
  /\ (forall n, n ∉ Helpers.name <$> helpers ->
        Helpers.register helpers ctx env !! n = env !! n)
  /\ (forall t regions w,
        snd (Helpers.getTranslator ctx (fst (setTranslator t w))) = Normal t
        /\ snd (Helpers.getContent ctx (fst (addContent regions w)))
           = Normal regions).
Proof.
  apply (constructor_registers_helpers Stub.engine None None
           [Helpers.mkSpec "if" (fun _ => "first")]
           [Helpers.mkSpec "json" (fun _ => "third")]
           (Helpers.mkSpec "if" (fun _ => "second"))
           {[ "if" := "builtin"; "each" := "builtin" ]}).
  apply (bool_decide_unpack _). vm_compute. exact I.
Defined.

Lemma render_reuses_context_object_witness :
  let w := fst (setTranslator (Some Stub.en_US)
                  (Stub.with_object 0 {[ "name" := VStr "World" ]}
                     (Stub.world_with "p" "{{locale_name}}"))) in
  let w1 := fst (setTranslator None (fst (render "p" (Some 0) w))) in
  exists w2 seen rest,
    render "p" (Some 0) w1 =
      (w2, match Stub.template_of "{{locale_name}}" seen with
           | Throw e => Throw (new RenderError (message e))
           | Normal out =>
               match pipeline (_decorators (this w)) out with
               | Normal final => Normal final
               | Throw e => Throw (new DecoratorError (message e))
               end
           end)
    /\ calls w2 = calls w1 ++ CallTemplate seen :: rest
    /\ executed rest = []
    /\ seen !! "template" = Some (VStr "p")
    /\ seen !! "locale_name" = Some (VStr (getLocale Stub.en_US)).
Proof.
  apply (render_reuses_context_object "p" "p" 0 {[ "name" := VStr "World" ]}
           Stub.en_US (Stub.template_of "{{locale_name}}")
           (fst (setTranslator (Some Stub.en_US)
                   (Stub.with_object 0 {[ "name" := VStr "World" ]}
                      (Stub.world_with "p" "{{locale_name}}")))));
    vm_compute; reflexivity.
Defined.
